(** * Chat gateways: retry controller (app.py) and exact-match cache (charan.py)

    A shallow embedding of the two Flask services of the repository.

    - [Py]     : the fragment of Python the two files rely on: text, values
                 decoded from JSON, exceptions, [str.lower], [str.strip],
                 the substring test [in] and f-string rendering.
    - [App]    : app.py, the gateway with prompt assembly, the retry loop
                 with exponential backoff and the /api/submit handler.
    - [Charan] : charan.py, the gateway with the SQLite question cache.

    Text is a [string] whose characters are read as the code points
    U+0000..U+00FF; on that range [str.lower], [str.isspace] and [repr]
    are written out as CPython computes them. A float is carried by the
    text [repr] gives for it. *)

From Stdlib Require Import ZArith List String Ascii Bool Lia DecimalString.
From Stdlib Require Finite.
Import ListNotations.
Local Open Scope string_scope.
Local Open Scope Z_scope.

Module Py.

(** ** Text *)

Definition code (c : ascii) : N := N_of_ascii c.

(** [str.isspace] on one code point below 256. *)
Definition isspace (c : ascii) : bool :=
  let n := code c in
  ((9 <=? n) && (n <=? 13) || (28 <=? n) && (n <=? 32)
   || (n =? 133) || (n =? 160))%N.

(** [str.lower] on one code point below 256: A-Z, and the capitals of the
    Latin-1 block (U+00C0..U+00DE but the multiplication sign U+00D7). *)
Definition lower_char (c : ascii) : ascii :=
  let n := code c in
  if ((65 <=? n) && (n <=? 90)
      || (192 <=? n) && (n <=? 222) && negb (n =? 215))%N
  then ascii_of_N (n + 32) else c.

Fixpoint lower (s : string) : string :=
  match s with
  | EmptyString => EmptyString
  | String c r => String (lower_char c) (lower r)
  end.

Fixpoint lstrip (s : string) : string :=
  match s with
  | EmptyString => EmptyString
  | String c r => if isspace c then lstrip r else s
  end.

Fixpoint rstrip (s : string) : string :=
  match s with
  | EmptyString => EmptyString
  | String c r =>
      match rstrip r with
      | EmptyString => if isspace c then EmptyString else String c EmptyString
      | r' => String c r'
      end
  end.

(** [s.strip()]. *)
Definition strip (s : string) : string := rstrip (lstrip s).

(** Text made of whitespace only, and text that begins or ends with it. *)
Fixpoint all_space (s : string) : bool :=
  match s with
  | EmptyString => true
  | String c r => isspace c && all_space r
  end.

Definition starts_with_space (s : string) : bool :=
  match s with
  | EmptyString => false
  | String c _ => isspace c
  end.

Fixpoint ends_with_space (s : string) : bool :=
  match s with
  | EmptyString => false
  | String c EmptyString => isspace c
  | String _ r => ends_with_space r
  end.

(** [needle in hay] on text. *)
Fixpoint str_in (needle hay : string) : bool :=
  String.prefix needle hay ||
  match hay with
  | EmptyString => false
  | String _ r => str_in needle r
  end.

(** [str(n)] for an int. *)
Definition str_of_int (z : Z) : string := NilZero.string_of_int (Z.to_int z).

(** ** Values decoded from a JSON body *)

#[local] Unset Elimination Schemes.
Inductive pyval : Type :=
| PNone
| PBool (b : bool)
| PInt (z : Z)
| PFloat (repr : string)
| PStr (s : string)
| PList (l : list pyval)
| PDict (d : list (string * pyval)).
#[local] Set Elimination Schemes.

(** [d.get(k)] on the items of a dict, in insertion order. *)
Fixpoint dict_get (k : string) (d : list (string * pyval)) : option pyval :=
  match d with
  | [] => None
  | (k', v) :: r => if String.eqb k k' then Some v else dict_get k r
  end.

Definition type_name (v : pyval) : string :=
  match v with
  | PNone => "NoneType"
  | PBool _ => "bool"
  | PInt _ => "int"
  | PFloat _ => "float"
  | PStr _ => "str"
  | PList _ => "list"
  | PDict _ => "dict"
  end.

(** *** [repr] of text *)

Definition hex_digit (n : N) : ascii :=
  ascii_of_N (if (n <? 10)%N then 48 + n else 87 + n).

Definition isprintable (c : ascii) : bool :=
  let n := code c in
  ((32 <=? n) && (n <? 127) || (161 <=? n) && negb (n =? 173))%N.

Definition repr_char (quote c : ascii) : string :=
  let n := code c in
  if Ascii.eqb c quote || Ascii.eqb c "\"
  then String "\" (String c EmptyString)
  else if (n =? 9)%N then "\t"
  else if (n =? 10)%N then "\n"
  else if (n =? 13)%N then "\r"
  else if isprintable c then String c EmptyString
  else String "\" (String "x" (String (hex_digit (n / 16))
         (String (hex_digit (n mod 16)) EmptyString))).

Fixpoint has_char (q : ascii) (s : string) : bool :=
  match s with
  | EmptyString => false
  | String c r => Ascii.eqb c q || has_char q r
  end.

Fixpoint repr_body (quote : ascii) (s : string) : string :=
  match s with
  | EmptyString => EmptyString
  | String c r => repr_char quote c ++ repr_body quote r
  end.

(** The double quote U+0022 and the newline U+000A. *)
Definition dquote : ascii := ascii_of_N 34.
Definition nl : string := String (ascii_of_N 10) EmptyString.

Definition repr_str (s : string) : string :=
  let quote : ascii :=
    if has_char "'" s && negb (has_char dquote s) then dquote else "'"%char in
  String quote (repr_body quote s ++ String quote EmptyString).

(** *** [repr] and [str] of a value *)

Fixpoint join (sep : string) (l : list string) : string :=
  match l with
  | [] => EmptyString
  | [x] => x
  | x :: r => x ++ sep ++ join sep r
  end.

Fixpoint repr (v : pyval) : string :=
  match v with
  | PNone => "None"
  | PBool true => "True"
  | PBool false => "False"
  | PInt z => str_of_int z
  | PFloat r => r
  | PStr s => repr_str s
  | PList l => "[" ++ join ", " (map repr l) ++ "]"
  | PDict d =>
      "{" ++ join ", " (map (fun kv => repr_str (fst kv) ++ ": " ++ repr (snd kv)) d)
          ++ "}"
  end.

(** [str(v)], which is also what an f-string field [{v}] renders. *)
Definition str (v : pyval) : string :=
  match v with
  | PStr s => s
  | _ => repr v
  end.

(** ** Exceptions and results *)

Inductive exn_class : Type :=
| RuntimeError
| TypeError
| AttributeError
| BadRequest
| UnsupportedMediaType
| UpstreamError.

(** An exception object; [exn_msg] is what [str(e)] gives. *)
Record exn : Type := Exn { exn_cls : exn_class; exn_msg : string }.

Inductive result (A : Type) : Type :=
| Return (a : A)
| Raise (e : exn).
Arguments Return {A} a.
Arguments Raise {A} e.

(** Sequencing of steps that may raise. *)
Definition and_then {A B} (r : result A) (k : A -> result B) : result B :=
  match r with
  | Return a => k a
  | Raise e => Raise e
  end.

Notation "'let*' x ':=' r 'in' k" := (and_then r (fun x => k))
  (at level 10, x name, r at level 100, k at level 200).

(** ** Effects

    A computation over a world [W] that may raise; what it did to the
    world before an exception stays done. *)

Definition M (W A : Type) : Type := W -> result A * W.

Definition ret {W A} (a : A) : M W A := fun w => (Return a, w).

Definition raise {W A} (e : exn) : M W A := fun w => (Raise e, w).

Definition lift {W A} (r : result A) : M W A := fun w => (r, w).

Definition bind {W A B} (m : M W A) (k : A -> M W B) : M W B :=
  fun w => match m w with
           | (Return a, w') => k a w'
           | (Raise e, w') => (Raise e, w')
           end.

(** [try: m  except Exception as e: handler e]. *)
Definition try_except {W A} (m : M W A) (handler : exn -> M W A) : M W A :=
  fun w => match m w with
           | (Return a, w') => (Return a, w')
           | (Raise e, w') => handler e w'
           end.

Notation "x <- m ;; k" := (bind m (fun x => k))
  (at level 100, m at next level, right associativity).
Notation "m ;; k" := (bind m (fun _ => k))
  (at level 100, right associativity).

(** ** The two libraries around the handlers *)

(** google.generativeai: what one use of the generation capability gives,
    the text of the reply ([model.generate_content(prompt)] then [.text])
    or an exception whose [str] is [msg]. *)
Inductive outcome : Type :=
| Text (t : string)
| Failure (msg : string).

(** Flask: a request is read through [request.get_json()] only; a
    response is a status and a JSON payload. *)
Record request : Type := Request { get_json : result pyval }.

Record response : Type := Response { status : Z; payload : pyval }.

(** [jsonify] of a dict is that dict as the payload. *)
Definition jsonify (v : pyval) : pyval := v.

(** [len(v)]. *)
Definition len (v : pyval) : result Z :=
  match v with
  | PStr s => Return (Z.of_nat (String.length s))
  | PList l => Return (Z.of_nat (List.length l))
  | PDict d => Return (Z.of_nat (List.length d))
  | _ => Raise (Exn TypeError
                  ("object of type '" ++ type_name v ++ "' has no len()"))
  end.

Fixpoint chars (s : string) : list pyval :=
  match s with
  | EmptyString => []
  | String c r => PStr (String c EmptyString) :: chars r
  end.

(** The items [for x in v] goes through. *)
Definition iter (v : pyval) : result (list pyval) :=
  match v with
  | PStr s => Return (chars s)
  | PList l => Return l
  | PDict d => Return (map (fun kv => PStr (fst kv)) d)
  | _ => Raise (Exn TypeError ("'" ++ type_name v ++ "' object is not iterable"))
  end.

(** [v.get(k, default)]: only a dict has the method. *)
Definition get (v : pyval) (k : string) (default : pyval) : result pyval :=
  match v with
  | PDict d => Return match dict_get k d with Some x => x | None => default end
  | _ => Raise (Exn AttributeError
                  ("'" ++ type_name v ++ "' object has no attribute 'get'"))
  end.

End Py.

(** * app.py *)

Module App.
Import Py.

(** What the gateway does to the outside, in the order it does it. *)
Inductive event : Type :=
| EvCall (prompt : string) (o : outcome)
| EvSleep (seconds : Z).

(** [range(lo, hi)]. *)
Definition range (lo hi : Z) : list Z :=
  map (fun i => lo + Z.of_nat i) (seq 0 (Z.to_nat (hi - lo))).

(** [msg.get('role') == 'user']. *)
Definition is_user (role : pyval) : bool :=
  match role with
  | PStr s => String.eqb s "user"
  | _ => false
  end.

(** Lines 29-34: the conversation string, [conversation] being what the
    earlier messages gave. *)
Fixpoint build_conversation (msgs : list pyval) (conversation : string)
  : result string :=
  match msgs with
  | [] => Return conversation
  | msg :: rest =>
      let* role := get msg "role" PNone in
      if is_user role then
        let* content := get msg "content" (PStr "") in
        build_conversation rest (conversation ++ "You: " ++ str content ++ nl)
      else
        let* content := get msg "content" (PStr "") in
        build_conversation rest (conversation ++ "Bot: " ++ str content ++ nl)
  end.

(** [conversation = ''] and the [for msg in history] loop. *)
Definition assemble (history : pyval) : result string :=
  let* msgs := iter history in
  build_conversation msgs "".

(** Line 47, on the lowered message. *)
Definition non_retryable (msg : string) : bool :=
  str_in "403" msg || str_in "leaked" msg || str_in "invalid" msg
  || str_in "permission" msg.

(** The two errors the retry loop raises (lines 50 and 59). *)
Definition api_error (e : exn) : exn :=
  Exn RuntimeError ("Generative API error: " ++ exn_msg e).

Definition retries_error (retries : Z) (e : exn) : exn :=
  Exn RuntimeError ("Generative API failed after " ++ str_of_int retries
                    ++ " attempts: " ++ exn_msg e).

(** How one round of the retry loop ends: with [return], or by going on to
    the next attempt with a new backoff. *)
Inductive step : Type :=
| Returned (v : pyval)
| Continue (backoff : Z).

Section Gateway.

(** The external generation capability: a state and a transition. *)
Variable Cap : Type.
Variable generate : Cap -> string -> outcome * Cap.

Record world : Type := World {
  cap : Cap;
  events : list event;
  stdout : list string
}.

Definition print (line : string) : M world unit :=
  fun w => (Return tt, World (cap w) (events w) (stdout w ++ [line])).

Definition sleep (seconds : Z) : M world unit :=
  fun w => (Return tt, World (cap w) (events w ++ [EvSleep seconds]) (stdout w)).

(** [model.generate_content(conversation).text] *)
Definition generate_content (conversation : string) : M world string :=
  fun w =>
    let (o, c) := generate (cap w) conversation in
    let w' := World c (events w ++ [EvCall conversation o]) (stdout w) in
    match o with
    | Text t => (Return t, w')
    | Failure msg => (Raise (Exn UpstreamError msg), w')
    end.

(** Lines 40-59: the body of the retry loop. *)
Definition attempt_body (conversation : string) (retries attempt backoff : Z)
  : M world step :=
  try_except
    (text <- generate_content conversation ;;
     ret (Returned (PStr (strip text))))
    (fun e =>
       let msg := lower (exn_msg e) in
       if non_retryable msg then
         print ("Non-retryable error from generative API: " ++ exn_msg e) ;;
         raise (api_error e)
       else if attempt <? retries then
         print ("Transient error: " ++ exn_msg e ++ ". Retrying in "
                ++ str_of_int backoff ++ "s (attempt " ++ str_of_int attempt
                ++ "/" ++ str_of_int retries ++ ")...") ;;
         sleep backoff ;;
         ret (Continue (Z.min (backoff * 2) 10))
       else
         print ("All retries exhausted. Last error: " ++ exn_msg e) ;;
         raise (retries_error retries e)).

(** Lines 39-59: [for attempt in attempts]; a loop that ends without
    [return] makes the function give [None]. *)
Fixpoint retry_loop (conversation : string) (retries : Z) (attempts : list Z)
  (backoff : Z) : M world pyval :=
  match attempts with
  | [] => ret PNone
  | attempt :: rest =>
      s <- attempt_body conversation retries attempt backoff ;;
      match s with
      | Returned v => ret v
      | Continue backoff' => retry_loop conversation retries rest backoff'
      end
  end.

Definition chat_with_gemini (history : pyval) (retries : Z) : M world pyval :=
  conversation <- lift (assemble history) ;;
  retry_loop conversation retries (range 1 (retries + 1)) 1.

(** [retries=3] of the signature, which [handle_submit] relies on. *)
Definition default_retries : Z := 3.

Definition handle_submit (req : request) : M world response :=
  data <- lift (get_json req) ;;
  history <- lift (get data "history" (PList [])) ;;
  try_except
    (n <- lift (len history) ;;
     print ("Received /api/submit request. History length: " ++ str_of_int n) ;;
     response_text <- chat_with_gemini history default_retries ;;
     ret (Response 200 (jsonify (PDict [("response", response_text)]))))
    (fun e =>
       print ("Error in /api/submit: " ++ exn_msg e) ;;
       ret (Response 500
              (jsonify (PDict [("error", PStr "Internal server error");
                               ("detail", PStr (exn_msg e))])))).

(** *** Vocabulary of the properties *)

(** The first [n] outcomes of the capability asked [prompt] again and
    again from state [c], and the state it is left in. *)
Fixpoint ask (c : Cap) (prompt : string) (n : nat) : list outcome * Cap :=
  match n with
  | O => ([], c)
  | S n' =>
      let (o, c1) := generate c prompt in
      let (os, c') := ask c1 prompt n' in
      (o :: os, c')
  end.

End Gateway.

Arguments World {Cap} cap events stdout.
Arguments cap {Cap} w.
Arguments events {Cap} w.
Arguments stdout {Cap} w.
Arguments attempt_body {Cap} generate conversation retries attempt backoff w.
Arguments retry_loop {Cap} generate conversation retries attempts backoff w.
Arguments chat_with_gemini {Cap} generate history retries w.
Arguments handle_submit {Cap} generate req w.
Arguments ask {Cap} generate c prompt n.

(** The markers of a credential failure. *)
Definition markers : list string := ["403"; "leaked"; "invalid"; "permission"].

(** [msg] contains one of the markers, whatever the case of its letters. *)
Definition has_marker (msg : string) : Prop :=
  exists marker pre mid post,
    In marker markers /\ msg = pre ++ mid ++ post /\ lower mid = marker.

Definition transient (msg : string) : Prop := ~ has_marker msg.

(** The length of the sleep before retry number [k] (k = 1, 2, ...). *)
Definition backoff_before (k : nat) : Z := Z.min (2 ^ (Z.of_nat k - 1)) 10.

(** Attempts that fail with [ms] one after the other, each followed by the
    sleep before the next retry, the first of them being retry [k]. *)
Fixpoint retry_trace (prompt : string) (k : nat) (ms : list string)
  : list event :=
  match ms with
  | [] => []
  | m :: r =>
      EvCall prompt (Failure m) :: EvSleep (backoff_before k)
        :: retry_trace prompt (S k) r
  end.

(** How attempt number [n], the last one made, may end: with a reply, with
    a credential failure, or with a transient failure when [n] is the last
    attempt of the budget. *)
Definition final_attempt (retries : Z) (n : nat) (o : outcome) : Prop :=
  match o with
  | Text _ => True
  | Failure m => has_marker m \/ (transient m /\ Z.of_nat n = retries)
  end.

(** The prompts of the calls and the lengths of the sleeps of a trace. *)
Fixpoint calls (evs : list event) : list string :=
  match evs with
  | [] => []
  | EvCall p _ :: r => p :: calls r
  | EvSleep _ :: r => calls r
  end.

Fixpoint sleeps (evs : list event) : list Z :=
  match evs with
  | [] => []
  | EvCall _ _ :: r => sleeps r
  | EvSleep d :: r => d :: sleeps r
  end.

(** A conversation turn of the data model, and the dicts that carry it. *)
Record turn : Type := Turn { role : string; content : string }.

Definition is_turn (msg : pyval) (t : turn) : Prop :=
  exists d, msg = PDict d
            /\ dict_get "role" d = Some (PStr (role t))
            /\ dict_get "content" d = Some (PStr (content t)).

(** One line of the prompt, and the prompt of a history. *)
Definition render (t : turn) : string :=
  (if String.eqb (role t) "user" then "You: " else "Bot: ")
    ++ content t ++ nl.

Definition prompt_of (ts : list turn) : string :=
  fold_right String.append "" (map render ts).

(** ** Start-up (lines 12-22) *)

(** [os.environ.get]: the value of a variable, or [None]. *)
Definition environ : Type := string -> option string.

(** The truth value of what [os.environ.get] gives: [None] and the empty
    text are false. *)
Definition truthy (v : option string) : bool :=
  match v with
  | Some (String _ _) => true
  | _ => false
  end.

(** [a or b]. *)
Definition py_or (a b : option string) : option string :=
  if truthy a then a else b.

(** What an f-string field renders for a value that may be [None]. *)
Definition str_opt (v : option string) : string :=
  match v with
  | Some s => s
  | None => "None"
  end.

(** Line 13. *)
Definition API_KEY (env : environ) : option string :=
  py_or (py_or (env "GENAI_API_KEY") (env "GOOGLE_API_KEY")) (env "API_KEY").

(** Line 21. *)
Definition MODEL_NAME (env : environ) : option string :=
  py_or (py_or (env "GENAI_MODEL") (env "MODEL")) (Some "gemini-2.5-flash").

Definition key_not_set : exn :=
  Exn RuntimeError
    ("GENAI API key not set. Please set GENAI_API_KEY in the environment "
     ++ "or in a .env file.").

(** What the module holds once it is loaded: the key given to
    [genai.configure] and the model name. *)
Record settings : Type := Settings {
  api_key : option string;
  model_name : option string
}.

(** [print] before there is a gateway: the world is the lines printed. *)
Definition say (line : string) : M (list string) unit :=
  fun out => (Return tt, (out ++ [line])%list).

(** Lines 13-22, over the lines printed so far. *)
Definition startup (env : environ) : M (list string) settings :=
  let key := API_KEY env in
  if negb (truthy key) then raise key_not_set
  else
    say ("GENAI configured. Using API key present: "
         ++ (if truthy key then "yes" else "no")) ;;
    let model := MODEL_NAME env in
    say ("Using model: " ++ str_opt model) ;;
    ret (Settings key model).

(** The first value of a list that is set and not empty. *)
Fixpoint first_set (vs : list (option string)) : option string :=
  match vs with
  | [] => None
  | Some (String c r) :: _ => Some (String c r)
  | _ :: rest => first_set rest
  end.

(** *** More vocabulary of the properties *)

(** A line of the prompt for a message that is the dict [d]. *)
Definition line_for (d : list (string * pyval)) (line : string) : Prop :=
  exists speaker text,
    line = speaker ++ text ++ nl
    /\ ((speaker = "You: " /\ dict_get "role" d = Some (PStr "user"))
        \/ (speaker = "Bot: " /\ dict_get "role" d <> Some (PStr "user")))
    /\ match dict_get "content" d with
       | None => text = ""
       | Some v => text = str v
       end.

Definition is_dict (v : pyval) : bool :=
  match v with
  | PDict _ => true
  | _ => false
  end.

(** The payload of the answer 500. *)
Definition error_payload (detail : string) : pyval :=
  PDict [("error", PStr "Internal server error"); ("detail", PStr detail)].

(** *** Stubs of the capability and inputs for the examples *)

(** An environment with [GOOGLE_API_KEY] and an empty [GENAI_API_KEY]. *)
Definition google_env : environ :=
  fun name =>
    if String.eqb name "GENAI_API_KEY" then Some ""
    else if String.eqb name "GOOGLE_API_KEY" then Some "k-123"
    else None.

(** Fails [k] times with a timeout, then replies. *)
Definition fails_first (k : nat) (n : nat) (_ : string) : outcome * nat :=
  (if (n <? k)%nat then Failure "timeout" else Text "  hello  ", S n).

(** Fails twice with a timeout, then replies. *)
Definition fails_twice (n : nat) (_ : string) : outcome * nat :=
  (if (n <? 2)%nat then Failure "timeout" else Text "  hello  ", S n).

(** Fails every time with [msg]. *)
Definition always_fails (msg : string) (n : nat) (_ : string) : outcome * nat :=
  (Failure msg, S n).

Definition fresh : world nat := World 0%nat [] [].

Definition hi_hello : list pyval :=
  [PDict [("role", PStr "user"); ("content", PStr "hi")];
   PDict [("role", PStr "bot"); ("content", PStr "hello")]].

Definition hi_hello_prompt : string := "You: hi" ++ nl ++ "Bot: hello" ++ nl.

(** What [request.get_json()] raises on a body that is not JSON. *)
Definition bad_request : exn :=
  Exn BadRequest
    ("400 Bad Request: The browser (or proxy) sent a request that this "
     ++ "server could not understand.").

End App.

(** * charan.py *)

Module Charan.
Import Py.

(** A row of [chatbot_responses] (lines 15-21); a table holds its rows in
    rowid order. *)
Record row : Type := Row { id : Z; question : string; answer : string }.

Definition table : Type := list row.

(** Lines 12-23, [CREATE TABLE IF NOT EXISTS]: the table of a file that has
    none is created empty, the table of a file that has one is left as it
    is. *)
Definition init_db (file : option table) : table :=
  match file with
  | None => []
  | Some t => t
  end.

(** [SELECT response FROM chatbot_responses WHERE question = ?]: text is
    compared byte for byte. *)
Definition select_response (q : string) (t : table) : list string :=
  map answer (filter (fun r => String.eqb (question r) q) t).

(** [cursor.fetchone()]. *)
Definition fetchone {A} (rows : list A) : option A :=
  match rows with
  | [] => None
  | r :: _ => Some r
  end.

(** The rowid an AUTOINCREMENT key gives the next row of a table no row
    was deleted from. *)
Definition next_id (t : table) : Z :=
  1 + fold_right (fun r m => Z.max (id r) m) 0 t.

(** [INSERT INTO chatbot_responses (question, response) VALUES (?, ?)] *)
Definition insert (q a : string) (t : table) : table :=
  (t ++ [Row (next_id t) q a])%list.

Section Gateway.

Variable Cap : Type.
Variable generate : Cap -> string -> outcome * Cap.

(** The capability, the prompts it was called with so far, and the
    committed content of simple_chat.db. *)
Record world : Type := World {
  cap : Cap;
  calls : list string;
  db : table
}.

(** Lines 27-30. *)
Definition chat_with_gemini (prompt : string) : M world string :=
  fun w =>
    let (o, c) := generate (cap w) prompt in
    let w' := World c (calls w ++ [prompt]) (db w) in
    match o with
    | Text t => (Return (strip t), w')
    | Failure msg => (Raise (Exn UpstreamError msg), w')
    end.

Definition execute_select (q : string) : M world (list string) :=
  fun w => (Return (select_response q (db w)), w).

(** The INSERT of line 50 with the commit of line 51. *)
Definition execute_insert (q a : string) : M world unit :=
  fun w => (Return tt, World (cap w) (calls w) (insert q a (db w))).

(** Lines 37-54, [user_input] being the text of [request.json['message']]. *)
Definition get_response (user_input : string) : M world response :=
  rows <- execute_select user_input ;;
  bot_response <-
    match fetchone rows with
    | Some r => ret r
    | None =>
        bot_response <- chat_with_gemini user_input ;;
        execute_insert user_input bot_response ;;
        ret bot_response
    end ;;
  ret (Response 200 (jsonify (PDict [("response", PStr bot_response)]))).

(** Requests handled one at a time, whatever each one gave. *)
Fixpoint serve (qs : list string) (w : world) : world :=
  match qs with
  | [] => w
  | q :: r => serve r (snd (get_response q w))
  end.

End Gateway.

Arguments World {Cap} cap calls db.
Arguments cap {Cap} w.
Arguments calls {Cap} w.
Arguments db {Cap} w.
Arguments chat_with_gemini {Cap} generate prompt w.
Arguments get_response {Cap} generate user_input w.
Arguments serve {Cap} generate qs w.

(** The store has an entry for [q]. *)
Definition cached (q : string) (t : table) : Prop :=
  exists r, In r t /\ question r = q.

(** The reply of the handler that carries [text]. *)
Definition reply (text : string) : response :=
  Response 200 (PDict [("response", PStr text)]).

(** The questions of [qs] that are not in [seen], each once, in the order
    they are first met. *)
Fixpoint first_asked (seen qs : list string) : list string :=
  match qs with
  | [] => []
  | q :: r =>
      if existsb (String.eqb q) seen then first_asked seen r
      else q :: first_asked (seen ++ [q]) r
  end.

(** The largest id of a table, 0 for the empty one. *)
Definition max_id (t : table) : Z := fold_right (fun r m => Z.max (id r) m) 0 t.

(** Text with no whitespace at either end. *)
Definition stripped (s : string) : Prop :=
  starts_with_space s = false /\ ends_with_space s = false.

(** *** Stubs of the capability for the examples *)

(** Fails on its first use, replies "A1" afterwards. *)
Definition fails_once (n : nat) (_ : string) : outcome * nat :=
  (if (n <? 1)%nat then Failure "quota" else Text "A1", S n).

(** Replies "A1" to everything. *)
Definition answers_a1 (n : nat) (_ : string) : outcome * nat :=
  (Text "A1", S n).

(** Replies with the prompt between blanks and a newline. *)
Definition echoes_padded (n : nat) (prompt : string) : outcome * nat :=
  (Text ("  " ++ prompt ++ " " ++ nl), S n).

Definition fresh : world nat := World 0%nat [] (init_db None).

End Charan.

(** * Facts about the Python fragment *)

Module PyFacts.
Import Py.

Lemma prefix_iff (a s : string) :
  String.prefix a s = true <-> exists post, s = a ++ post.
Proof.
  revert s; induction a as [|c a IH]; intros s.
  - split; [intros _; exists s; reflexivity | intros _; now destruct s].
  - destruct s as [|d s]; simpl.
    + split; [discriminate | intros [post H]; discriminate].
    + destruct (Ascii.ascii_dec c d) as [->|Hne].
      * rewrite IH. split; intros [post H]; exists post.
        -- now rewrite H.
        -- now injection H.
      * split; [discriminate | intros [post H]; congruence].
Qed.

Lemma str_in_iff (a s : string) :
  str_in a s = true <-> exists pre post, s = pre ++ a ++ post.
Proof.
  induction s as [|d s IH]; cbn [str_in].
  - rewrite orb_false_r, prefix_iff. split.
    + intros [post H]. exists "", post. exact H.
    + intros [pre [post H]]. destruct pre; simpl in H.
      * exists post. exact H.
      * discriminate.
  - rewrite orb_true_iff, prefix_iff, IH. split.
    + intros [[post H] | [pre [post H]]].
      * exists "", post. exact H.
      * exists (String d pre), post. simpl. now rewrite H.
    + intros [pre [post H]]. destruct pre as [|e pre]; simpl in H.
      * left. exists post. exact H.
      * right. exists pre, post. now injection H.
Qed.

Lemma append_assoc (a b c : string) : (a ++ b) ++ c = a ++ (b ++ c).
Proof. induction a as [|x a IH]; simpl; [reflexivity | now rewrite IH]. Qed.

Lemma append_nil_r (a : string) : a ++ "" = a.
Proof. induction a as [|x a IH]; simpl; [reflexivity | now rewrite IH]. Qed.

Lemma lower_app (a b : string) : lower (a ++ b) = lower a ++ lower b.
Proof. induction a as [|c a IH]; simpl; [reflexivity | now rewrite IH]. Qed.

Lemma lower_split (s a b : string) :
  lower s = a ++ b ->
  exists s1 s2, s = s1 ++ s2 /\ lower s1 = a /\ lower s2 = b.
Proof.
  revert s; induction a as [|c a IH]; intros s H; simpl in H.
  - exists "", s. repeat split. exact H.
  - destruct s as [|d s]; simpl in H; [discriminate|].
    injection H as Hc Hs. destruct (IH s Hs) as (s1 & s2 & -> & H1 & H2).
    exists (String d s1), s2. simpl. now rewrite Hc, H1.
Qed.

(** [marker in msg.lower()] finds the marker under any case of [msg]. *)
Lemma str_in_lower (marker msg : string) :
  str_in marker (lower msg) = true <->
  exists pre mid post, msg = pre ++ mid ++ post /\ lower mid = marker.
Proof.
  rewrite str_in_iff. split.
  - intros (pre' & post' & H).
    destruct (lower_split _ _ _ H) as (pre & rest & -> & _ & Hrest).
    destruct (lower_split _ _ _ Hrest) as (mid & post & -> & Hmid & _).
    now exists pre, mid, post.
  - intros (pre & mid & post & -> & <-).
    exists (lower pre), (lower post). now rewrite !lower_app.
Qed.

(** ** [strip] takes the whitespace off the two ends, and nothing else *)

Lemma lstrip_spec (s : string) :
  exists pre, s = pre ++ lstrip s
              /\ all_space pre = true
              /\ starts_with_space (lstrip s) = false.
Proof.
  induction s as [|c s (pre & Hs & Hpre & Hst)]; cbn [lstrip].
  - now exists "".
  - destruct (isspace c) eqn:Hc.
    + exists (String c pre). cbn [append all_space]. now rewrite Hc, Hpre, <- Hs.
    + exists "". cbn [append all_space starts_with_space]. now rewrite Hc.
Qed.

Lemma rstrip_spec (s : string) :
  exists post, s = rstrip s ++ post
               /\ all_space post = true
               /\ ends_with_space (rstrip s) = false.
Proof.
  induction s as [|c s (post & Hs & Hpost & Hend)]; cbn [rstrip].
  - now exists "".
  - destruct (rstrip s) as [|d r] eqn:Hr.
    + destruct (isspace c) eqn:Hc.
      * cbn [append] in Hs. subst post. exists (String c s).
        cbn [append all_space]. now rewrite Hc, Hpost.
      * cbn [append] in Hs. subst post. exists s.
        cbn [append ends_with_space]. now rewrite Hc.
    + exists post. cbn [append] in *. rewrite <- Hs.
      repeat split; [exact Hpost|]. exact Hend.
Qed.

Lemma rstrip_start (s : string) :
  starts_with_space s = false -> starts_with_space (rstrip s) = false.
Proof.
  destruct s as [|c s]; cbn [rstrip starts_with_space]; [reflexivity|].
  intros Hc. destruct (rstrip s); [|exact Hc]. now rewrite Hc.
Qed.

Lemma strip_spec (s : string) :
  exists pre post,
    s = pre ++ strip s ++ post
    /\ all_space pre = true /\ all_space post = true
    /\ starts_with_space (strip s) = false
    /\ ends_with_space (strip s) = false.
Proof.
  unfold strip.
  destruct (lstrip_spec s) as (pre & Hs & Hpre & Hst).
  destruct (rstrip_spec (lstrip s)) as (post & Hl & Hpost & Hend).
  exists pre, post. rewrite <- Hl.
  repeat split; auto using rstrip_start.
Qed.

End PyFacts.

(** * Facts about app.py *)

Module AppFacts.
Import Py PyFacts App.

(** ** Failure classes *)

Lemma has_marker_iff (msg : string) :
  has_marker msg <-> non_retryable (lower msg) = true.
Proof.
  unfold has_marker, non_retryable, markers.
  rewrite !orb_true_iff, !str_in_lower. split.
  - intros (marker & pre & mid & post & Hin & Hmsg & Hmid).
    simpl in Hin.
    destruct Hin as [<- | [<- | [<- | [<- | []]]]]; eauto 10.
  - intros [[[H | H] | H] | H]; destruct H as (pre & mid & post & Hmsg & Hmid);
      [exists "403" | exists "leaked" | exists "invalid" | exists "permission"];
      exists pre, mid, post; simpl; auto 10.
Qed.

Lemma transient_iff (msg : string) :
  transient msg <-> non_retryable (lower msg) = false.
Proof.
  unfold transient. rewrite has_marker_iff.
  destruct (non_retryable (lower msg)); split; congruence.
Qed.

Lemma errors_differ (retries : Z) (e e' : exn) :
  retries_error retries e <> api_error e'.
Proof. unfold retries_error, api_error. simpl. discriminate. Qed.

(** ** The backoff *)

Lemma backoff_before_1 : backoff_before 1 = 1.
Proof. reflexivity. Qed.

Lemma backoff_before_S (k : nat) :
  (1 <= k)%nat -> Z.min (backoff_before k * 2) 10 = backoff_before (S k).
Proof.
  intros Hk. unfold backoff_before.
  replace (Z.of_nat (S k) - 1) with (Z.succ (Z.of_nat k - 1)) by lia.
  rewrite Z.pow_succ_r by lia.
  set (x := 2 ^ (Z.of_nat k - 1)). lia.
Qed.

(** ** Traces *)

Lemma calls_app (a b : list event) : calls (a ++ b) = (calls a ++ calls b)%list.
Proof.
  induction a as [|[p o|d] a IH]; simpl; [reflexivity | now rewrite IH | exact IH].
Qed.

Lemma sleeps_app (a b : list event) :
  sleeps (a ++ b) = (sleeps a ++ sleeps b)%list.
Proof.
  induction a as [|[p o|d] a IH]; simpl; [reflexivity | exact IH | now rewrite IH].
Qed.

Lemma calls_retry_trace (p : string) (ms : list string) (k : nat) :
  calls (retry_trace p k ms) = repeat p (List.length ms).
Proof.
  revert k; induction ms as [|m ms IH]; intros k; simpl;
    [reflexivity | now rewrite IH].
Qed.

Lemma sleeps_retry_trace (p : string) (ms : list string) (k : nat) :
  sleeps (retry_trace p k ms) = map backoff_before (seq k (List.length ms)).
Proof.
  revert k; induction ms as [|m ms IH]; intros k; simpl;
    [reflexivity | now rewrite IH].
Qed.

Lemma retry_trace_snoc (p : string) (ms : list string) (m : string) (k : nat) :
  retry_trace p k (ms ++ [m]) =
  (retry_trace p k ms
     ++ [EvCall p (Failure m); EvSleep (backoff_before (k + List.length ms))])%list.
Proof.
  revert k; induction ms as [|m' ms IH]; intros k; simpl.
  - now rewrite Nat.add_0_r.
  - rewrite IH. now rewrite Nat.add_succ_r.
Qed.

(** ** [range] *)

Lemma range_empty (lo hi : Z) : hi <= lo -> range lo hi = [].
Proof.
  intros H. unfold range. now replace (Z.to_nat (hi - lo)) with 0%nat by lia.
Qed.

Lemma range_cons (lo hi : Z) :
  lo < hi -> range lo hi = lo :: range (lo + 1) hi.
Proof.
  intros H. unfold range.
  replace (Z.to_nat (hi - lo)) with (S (Z.to_nat (hi - (lo + 1)))) by lia.
  simpl. f_equal; [lia|].
  rewrite <- seq_shift, map_map. apply map_ext. intros i. lia.
Qed.

(** ** Start-up *)

(** X1. Start-up takes the key from the first of GENAI_API_KEY, GOOGLE_API_KEY
    and API_KEY that is set and not empty, an empty value counting as not
    set; with none of them it raises before it prints anything. *)
Theorem startup_key (env : environ) (out : list string) :
  match first_set [env "GENAI_API_KEY"; env "GOOGLE_API_KEY"; env "API_KEY"] with
  | Some key =>
      key <> ""
      /\ exists model more,
           startup env out
           = (Return (Settings (Some key) model), (out ++ more)%list)
  | None => startup env out = (Raise key_not_set, out)
  end.
Proof.
  unfold startup, API_KEY, py_or, bind, say, ret, raise.
  destruct (env "GENAI_API_KEY") as [[|c1 r1]|];
    destruct (env "GOOGLE_API_KEY") as [[|c2 r2]|];
    destruct (env "API_KEY") as [[|c3 r3]|]; cbn;
    try reflexivity;
    (split; [discriminate | eexists; eexists; rewrite <- app_assoc; reflexivity]).
Qed.

(** X2. When start-up succeeds the model name is the first of GENAI_MODEL and
    MODEL that is set and not empty, gemini-2.5-flash with none of them;
    it is never empty, and the line printed about the key always says
    yes. *)
Theorem startup_model (env : environ) (out out' : list string) cfg :
  startup env out = (Return cfg, out') ->
  exists name,
    model_name cfg = Some name
    /\ name <> ""
    /\ name = match first_set [env "GENAI_MODEL"; env "MODEL"] with
              | Some m => m
              | None => "gemini-2.5-flash"
              end
    /\ out' = (out ++ ["GENAI configured. Using API key present: yes";
                       ("Using model: " ++ name)%string])%list.
Proof.
  unfold startup, bind, say, ret, raise.
  destruct (truthy (API_KEY env)); cbn [negb]; [|discriminate].
  intros H. injection H as <- <-. unfold MODEL_NAME, py_or. cbn [model_name].
  destruct (env "GENAI_MODEL") as [[|c1 r1]|];
    destruct (env "MODEL") as [[|c2 r2]|]; cbn;
    eexists; (split; [reflexivity|]); rewrite <- app_assoc;
    (repeat split; discriminate).
Qed.

Lemma startup_model_witness :
  startup google_env []
  = (Return (Settings (Some "k-123") (Some "gemini-2.5-flash")),
     ["GENAI configured. Using API key present: yes";
      "Using model: gemini-2.5-flash"])
  /\ exists name,
       Some "gemini-2.5-flash" = Some name
       /\ name <> ""
       /\ name = "gemini-2.5-flash"
       /\ ["GENAI configured. Using API key present: yes";
           "Using model: gemini-2.5-flash"]
          = ([] ++ ["GENAI configured. Using API key present: yes";
                    ("Using model: " ++ name)%string])%list.
Proof.
  split; [reflexivity|].
  exact (startup_model google_env [] _ _ eq_refl).
Defined.

(** ** More on prompt assembly *)

Lemma build_conversation_acc msgs :
  forall acc,
    build_conversation msgs acc
    = and_then (build_conversation msgs "") (fun s => Return (acc ++ s)).
Proof.
  induction msgs as [|msg msgs IH]; intros acc; cbn [build_conversation].
  - cbn. now rewrite append_nil_r.
  - destruct (get msg "role" PNone) as [role|e]; [|reflexivity].
    cbn [and_then].
    destruct (is_user role);
      (destruct (get msg "content" (PStr "")) as [content|e]; [|reflexivity]);
      cbn [and_then append]; rewrite (IH (acc ++ _)), (IH (String _ _));
      destruct (build_conversation msgs "") as [s|e]; cbn [and_then];
      try reflexivity; now rewrite !append_assoc.
Qed.

Lemma build_conversation_app a b :
  forall acc,
    build_conversation (a ++ b) acc
    = and_then (build_conversation a acc) (fun s => build_conversation b s).
Proof.
  induction a as [|msg a IH]; intros acc; cbn [app build_conversation];
    [reflexivity|].
  destruct (get msg "role" PNone) as [role|e]; [|reflexivity].
  cbn [and_then].
  destruct (is_user role);
    (destruct (get msg "content" (PStr "")) as [content|e]; [|reflexivity]);
    cbn [and_then]; apply IH.
Qed.

(** X4. The prompt of two histories put end to end is the prompt of the first
    followed by the prompt of the second; when the first cannot be
    assembled, neither can the whole. *)
Theorem assemble_app (a b : list pyval) :
  (forall pa pb,
      assemble (PList a) = Return pa ->
      assemble (PList b) = Return pb ->
      assemble (PList (a ++ b)) = Return (pa ++ pb))
  /\ (forall e,
        assemble (PList a) = Raise e ->
        assemble (PList (a ++ b)) = Raise e).
Proof.
  unfold assemble. cbn [iter and_then]. split.
  - intros pa pb Ha Hb. rewrite build_conversation_app, Ha. cbn [and_then].
    now rewrite build_conversation_acc, Hb.
  - intros e Ha. now rewrite build_conversation_app, Ha.
Qed.

Lemma assemble_app_witness :
  assemble (PList hi_hello) = Return hi_hello_prompt
  /\ assemble (PList (hi_hello ++ hi_hello))
     = Return (hi_hello_prompt ++ hi_hello_prompt).
Proof.
  split; [reflexivity|].
  exact (proj1 (assemble_app hi_hello hi_hello) _ _ eq_refl eq_refl).
Defined.

(** X3. A history that is a list of JSON objects is always assembled,
    whatever the objects hold: one line per object, "You: " when its role
    is the text "user" and "Bot: " otherwise (no role included), followed
    by [str] of its content, the empty text when it has none. *)
Theorem assemble_dicts (ds : list (list (string * pyval))) :
  exists lines,
    assemble (PList (map PDict ds)) = Return (fold_right String.append "" lines)
    /\ Forall2 line_for ds lines.
Proof.
  unfold assemble. cbn [iter and_then].
  induction ds as [|d ds (lines & Hrun & Hlines)].
  - exists []. split; [reflexivity | constructor].
  - cbn [map build_conversation get and_then].
    assert (Hline : forall speaker,
               (speaker = "You: " /\ dict_get "role" d = Some (PStr "user"))
               \/ (speaker = "Bot: " /\ dict_get "role" d <> Some (PStr "user")) ->
               exists line,
                 build_conversation (map PDict ds)
                   ("" ++ speaker
                    ++ str match dict_get "content" d with
                           | Some x => x
                           | None => PStr ""
                           end ++ nl)
                 = Return (line ++ fold_right String.append "" lines)
                 /\ line_for d line).
    { intros speaker Hsp. eexists. rewrite build_conversation_acc, Hrun.
      cbn [and_then append]. split; [reflexivity|].
      exists speaker. eexists. split; [reflexivity|]. split; [exact Hsp|].
      now destruct (dict_get "content" d). }
    destruct (is_user match dict_get "role" d with
                      | Some x => x
                      | None => PNone
                      end) eqn:Hu.
    + destruct (Hline "You: ") as (line & Hb & Hl).
      { left. split; [reflexivity|].
        destruct (dict_get "role" d) as [[| | | |r| |]|]; try discriminate.
        cbn in Hu. apply String.eqb_eq in Hu. now subst. }
      exists (line :: lines). split; [exact Hb | now constructor].
    + destruct (Hline "Bot: ") as (line & Hb & Hl).
      { right. split; [reflexivity|]. intros Hr. rewrite Hr in Hu.
        discriminate. }
      exists (line :: lines). split; [exact Hb | now constructor].
Qed.

(** A history with an item that is not a JSON object cannot be assembled:
    [msg.get] raises AttributeError. *)
Lemma build_conversation_not_dict msgs :
  Exists (fun v => is_dict v = false) msgs ->
  forall acc, exists e,
    build_conversation msgs acc = Raise e /\ exn_cls e = AttributeError.
Proof.
  induction msgs as [|msg msgs IH]; intros H acc; [inversion H|].
  cbn [build_conversation].
  destruct msg as [| b | z | r | t | l | d];
    try (eexists; split; reflexivity).
  inversion H as [? ? Hd | ? ? Hrest]; subst; [discriminate|].
  cbn [get and_then].
  destruct (is_user _); cbn [and_then]; apply (IH Hrest).
Qed.

Section Gateway.

Variable Cap : Type.
Variable generate : Cap -> string -> outcome * Cap.

(** ** One attempt *)

Lemma attempt_text p retries a b (w : world Cap) t c :
  generate (cap w) p = (Text t, c) ->
  attempt_body generate p retries a b w =
  (Return (Returned (PStr (strip t))),
   World c (events w ++ [EvCall p (Text t)]) (stdout w)).
Proof.
  intros H. unfold attempt_body, try_except, bind, generate_content.
  now rewrite H.
Qed.

Lemma attempt_fatal p retries a b (w : world Cap) m c :
  generate (cap w) p = (Failure m, c) ->
  has_marker m ->
  attempt_body generate p retries a b w =
  (Raise (api_error (Exn UpstreamError m)),
   World c (events w ++ [EvCall p (Failure m)])
     (stdout w ++ ["Non-retryable error from generative API: " ++ m])).
Proof.
  intros H Hm. apply has_marker_iff in Hm.
  unfold attempt_body, try_except, bind, generate_content.
  rewrite H. cbn [exn_msg]. now rewrite Hm.
Qed.

Lemma attempt_retry p retries a b (w : world Cap) m c :
  generate (cap w) p = (Failure m, c) ->
  transient m ->
  a < retries ->
  exists out,
    attempt_body generate p retries a b w =
    (Return (Continue (Z.min (b * 2) 10)),
     World c (events w ++ [EvCall p (Failure m); EvSleep b]) (stdout w ++ out)).
Proof.
  intros H Hm Ha. apply transient_iff in Hm. apply Z.ltb_lt in Ha.
  unfold attempt_body, try_except, bind, generate_content.
  rewrite H. cbn [exn_msg]. rewrite Hm, Ha.
  eexists [_]. unfold print, sleep, ret. cbn [cap events stdout].
  now rewrite <- app_assoc.
Qed.

Lemma attempt_exhausted p retries a b (w : world Cap) m c :
  generate (cap w) p = (Failure m, c) ->
  transient m ->
  retries <= a ->
  attempt_body generate p retries a b w =
  (Raise (retries_error retries (Exn UpstreamError m)),
   World c (events w ++ [EvCall p (Failure m)])
     (stdout w ++ ["All retries exhausted. Last error: " ++ m])).
Proof.
  intros H Hm Ha. apply transient_iff in Hm. apply Z.ltb_ge in Ha.
  unfold attempt_body, try_except, bind, generate_content.
  rewrite H. cbn [exn_msg]. now rewrite Hm, Ha.
Qed.

(** ** Scripts of the capability *)

Lemma ask_S c p n :
  ask generate c p (S n) =
  let (o, c1) := generate c p in
  let (os, c') := ask generate c1 p n in (o :: os, c').
Proof. reflexivity. Qed.

Lemma ask_length c p n : List.length (fst (ask generate c p n)) = n.
Proof.
  revert c; induction n as [|n IH]; intros c; [reflexivity|].
  rewrite ask_S. destruct (generate c p) as [o c1].
  specialize (IH c1). destruct (ask generate c1 p n) as [os c'].
  simpl in *. now rewrite IH.
Qed.

Lemma ask_cons c p n o os c' :
  ask generate c p (S n) = (o :: os, c') ->
  exists c1, generate c p = (o, c1) /\ ask generate c1 p n = (os, c').
Proof.
  rewrite ask_S. destruct (generate c p) as [o1 c1].
  destruct (ask generate c1 p n) as [os1 c2] eqn:Hask. intros H.
  injection H as -> -> ->. now exists c1.
Qed.

Lemma ask_snoc c p os o c' :
  ask generate c p (S (List.length os)) = ((os ++ [o])%list, c') ->
  exists c1, ask generate c p (List.length os) = (os, c1)
             /\ generate c1 p = (o, c').
Proof.
  revert c; induction os as [|o1 os IH]; intros c H.
  - simpl in H. destruct (generate c p) as [o2 c2] eqn:Hg.
    injection H as -> ->. now exists c.
  - cbn [List.length app] in H. apply ask_cons in H as (c1 & Hg & H).
    destruct (IH c1 H) as (c2 & Hask & Hlast).
    exists c2. split; [|exact Hlast].
    cbn [List.length]. rewrite ask_S, Hg, Hask. reflexivity.
Qed.

(** ** The retry loop *)

(** Transient failures on attempts that are not the last one: each is
    followed by its sleep and the loop goes on. *)
Lemma retry_loop_transients p retries ms :
  forall k (w : world Cap) c',
    (1 <= k)%nat ->
    ask generate (cap w) p (List.length ms) = (map Failure ms, c') ->
    Forall transient ms ->
    Z.of_nat k + Z.of_nat (List.length ms) <= retries ->
    exists w',
      retry_loop generate p retries (range (Z.of_nat k) (retries + 1))
        (backoff_before k) w
      = retry_loop generate p retries
          (range (Z.of_nat (k + List.length ms)) (retries + 1))
          (backoff_before (k + List.length ms)) w'
      /\ cap w' = c'
      /\ events w' = (events w ++ retry_trace p k ms)%list.
Proof.
  induction ms as [|m ms IH]; intros k w c' Hk Hask Hms Hle.
  - simpl in Hask. injection Hask as <-. exists w.
    cbn [List.length retry_trace]. now rewrite Nat.add_0_r, app_nil_r.
  - cbn [List.length map] in *. apply ask_cons in Hask as (c1 & Hg & Hask).
    inversion Hms as [|? ? Hm Hms']; subst.
    rewrite range_cons by lia. cbn [retry_loop]. unfold bind at 1.
    destruct (attempt_retry p retries (Z.of_nat k) (backoff_before k) w m c1
                Hg Hm ltac:(lia)) as [out ->].
    rewrite backoff_before_S by exact Hk.
    replace (Z.of_nat k + 1) with (Z.of_nat (S k)) by lia.
    set (w1 := World c1 _ _).
    destruct (IH (S k) w1 c' ltac:(lia) Hask Hms' ltac:(lia))
      as (w' & Hrun & Hcap & Hev).
    exists w'. rewrite Hrun, Nat.add_succ_r. repeat split; [exact Hcap|].
    rewrite Hev. unfold w1. cbn [events retry_trace]. now rewrite <- app_assoc.
Qed.

(** Whatever the capability does, the loop leaves a trace of transient
    failures with their sleeps, closed by at most one last call. *)
Lemma retry_loop_trace p retries :
  forall n k (w : world Cap),
    n = Z.to_nat (retries + 1 - Z.of_nat k) ->
    (1 <= k)%nat ->
    exists ms final,
      events (snd (retry_loop generate p retries
                     (range (Z.of_nat k) (retries + 1)) (backoff_before k) w))
      = (events w ++ retry_trace p k ms ++ final)%list
      /\ Forall transient ms
      /\ ((ms = [] /\ final = [] /\ retries < Z.of_nat k)
          \/ exists o, final = [EvCall p o]
                       /\ Z.of_nat (k + List.length ms) <= retries
                       /\ final_attempt retries (k + List.length ms) o).
Proof.
  induction n as [|n IH]; intros k w Hn Hk.
  - rewrite range_empty by lia. exists [], []. cbn. rewrite app_nil_r.
    repeat split; [constructor | left; repeat split; lia].
  - rewrite range_cons by lia. cbn [retry_loop]. unfold bind at 1.
    destruct (generate (cap w) p) as [[t|m] c] eqn:Hg.
    + rewrite (attempt_text p _ _ _ w t c Hg). exists [], [EvCall p (Text t)].
      cbn. repeat split; [constructor|]. right. eexists. repeat split. lia.
    + destruct (non_retryable (lower m)) eqn:Hm.
      * apply has_marker_iff in Hm.
        rewrite (attempt_fatal p _ _ _ w m c Hg Hm).
        exists [], [EvCall p (Failure m)].
        cbn. repeat split; [constructor|]. right. eexists.
        repeat split; [lia | now left].
      * apply transient_iff in Hm.
        destruct (Z.lt_ge_cases (Z.of_nat k) retries) as [Hlt | Hge].
        -- destruct (attempt_retry p retries _ (backoff_before k) w m c Hg Hm Hlt)
             as [out ->].
           rewrite backoff_before_S by exact Hk.
           replace (Z.of_nat k + 1) with (Z.of_nat (S k)) by lia.
           set (w1 := World c _ _).
           destruct (IH (S k) w1 ltac:(lia) ltac:(lia))
             as (ms & final & Hev & Hms & Hend).
           exists (m :: ms), final. rewrite Hev. unfold w1.
           cbn [events retry_trace List.length]. rewrite <- app_assoc.
           repeat split; [now constructor|].
           destruct Hend as [(_ & _ & Hbad) | (o & Hf & Hle & Hfin)]; [lia|].
           right. exists o. now rewrite Nat.add_succ_r.
        -- rewrite (attempt_exhausted p _ _ _ w m c Hg Hm Hge).
           exists [], [EvCall p (Failure m)].
           cbn. repeat split; [constructor|]. right. eexists.
           repeat split; [lia | right; split; [exact Hm | lia]].
Qed.

Lemma chat_with_gemini_loop history p retries (w : world Cap) :
  assemble history = Return p ->
  chat_with_gemini generate history retries w =
  retry_loop generate p retries (range 1 (retries + 1)) (backoff_before 1) w.
Proof.
  intros H. unfold chat_with_gemini, bind, lift. now rewrite H.
Qed.

Lemma chat_transients history p retries ms (w : world Cap) c' :
  assemble history = Return p ->
  ask generate (cap w) p (List.length ms) = (map Failure ms, c') ->
  Forall transient ms ->
  Z.of_nat (List.length ms) < retries ->
  exists w',
    chat_with_gemini generate history retries w
    = retry_loop generate p retries
        (range (Z.of_nat (S (List.length ms))) (retries + 1))
        (backoff_before (S (List.length ms))) w'
    /\ cap w' = c'
    /\ events w' = (events w ++ retry_trace p 1 ms)%list.
Proof.
  intros Ha Hask Hms Hlt. rewrite (chat_with_gemini_loop _ _ _ _ Ha).
  exact (retry_loop_transients p retries ms 1 w c' (le_n 1) Hask Hms
           ltac:(lia)).
Qed.

Lemma chat_trace history p retries (w : world Cap) :
  assemble history = Return p ->
  exists ms final,
    events (snd (chat_with_gemini generate history retries w))
    = (events w ++ retry_trace p 1 ms ++ final)%list
    /\ Forall transient ms
    /\ ((ms = [] /\ final = [] /\ retries < 1)
        \/ exists o, final = [EvCall p o]
                     /\ Z.of_nat (S (List.length ms)) <= retries
                     /\ final_attempt retries (S (List.length ms)) o).
Proof.
  intros Ha. rewrite (chat_with_gemini_loop _ _ _ _ Ha).
  exact (retry_loop_trace p retries (Z.to_nat (retries + 1 - Z.of_nat 1)) 1 w
           eq_refl (le_n 1)).
Qed.

(** ** Prompt assembly *)

Lemma build_conversation_turns msgs ts :
  Forall2 is_turn msgs ts ->
  forall acc, build_conversation msgs acc = Return (acc ++ prompt_of ts).
Proof.
  induction 1 as [|msg t msgs ts (d & -> & Hrole & Hcontent) _ IH]; intros acc.
  - cbn. now rewrite append_nil_r.
  - cbn [build_conversation get and_then]. rewrite Hrole, Hcontent.
    cbn [is_user str]. unfold prompt_of. cbn [map fold_right].
    fold (prompt_of ts). unfold render.
    destruct (String.eqb (role t) "user"); rewrite IH;
      now rewrite !append_assoc.
Qed.

(** C9. Prompt assembly: a history whose messages carry the turns [ts] is
    assembled into the concatenation, in input order, of one line per
    turn, "You: <content>" and a newline for a turn whose role is "user"
    and "Bot: <content>" and a newline for any other turn; that text is the
    prompt the capability is called with. *)
Theorem prompt_assembly (msgs : list pyval) (ts : list turn) :
  Forall2 is_turn msgs ts ->
  assemble (PList msgs) = Return (prompt_of ts)
  /\ forall retries (w : world Cap),
       1 <= retries ->
       exists o rest,
         events (snd (chat_with_gemini generate (PList msgs) retries w))
         = (events w ++ EvCall (prompt_of ts) o :: rest)%list.
Proof.
  intros H.
  assert (Ha : assemble (PList msgs) = Return (prompt_of ts)).
  { unfold assemble. cbn [iter and_then].
    now rewrite (build_conversation_turns _ _ H). }
  split; [exact Ha|]. intros retries w Hr.
  destruct (chat_trace _ _ retries w Ha) as (ms & final & Hev & _ & Hend).
  rewrite Hev.
  destruct Hend as [(_ & _ & Hbad) | (o & -> & _)]; [lia|].
  destruct ms as [|m ms]; cbn [retry_trace app]; eauto.
Qed.

(** ** The retry controller *)

(** C1. Retry controller, success path: with the default budget of 3
    attempts, a capability that fails with transient messages on its
    first two uses and replies on the third is called exactly 3 times,
    with a sleep of 1 before the second call and of 2 before the third,
    and the stripped text of the third reply is returned. *)
Theorem retry_then_success history p m1 m2 t c3 (w : world Cap) :
  assemble history = Return p ->
  ask generate (cap w) p 3 = ([Failure m1; Failure m2; Text t], c3) ->
  transient m1 ->
  transient m2 ->
  exists w',
    chat_with_gemini generate history default_retries w
    = (Return (PStr (strip t)), w')
    /\ cap w' = c3
    /\ events w' = (events w ++
                    [EvCall p (Failure m1); EvSleep 1;
                     EvCall p (Failure m2); EvSleep 2;
                     EvCall p (Text t)])%list.
Proof.
  intros Ha Hask H1 H2.
  apply (ask_snoc _ _ (map Failure [m1; m2])) in Hask as (c2 & Hask & Hg).
  destruct (chat_transients history p default_retries [m1; m2] w c2
              Ha Hask (Forall_cons _ H1 (Forall_cons _ H2 (Forall_nil _)))
              ltac:(unfold default_retries; cbn; lia))
    as (w1 & -> & Hcap & Hev).
  cbn [List.length]. unfold default_retries.
  rewrite range_cons, range_empty by (cbn; lia).
  cbn [retry_loop]. unfold bind. rewrite <- Hcap in Hg.
  rewrite (attempt_text p _ _ _ w1 t c3 Hg).
  eexists. repeat split. cbn [events]. rewrite Hev. cbn [retry_trace].
  now rewrite <- app_assoc.
Qed.

(** C2. Non-retryable failures: at whatever attempt the capability fails
    with a message that contains one of the markers 403, leaked, invalid,
    permission in any case, the controller raises at once: the trace ends
    with that call, no sleep and no further call follow. *)
Theorem non_retryable_aborts history p retries ms m c' (w : world Cap) :
  assemble history = Return p ->
  ask generate (cap w) p (S (List.length ms))
  = ((map Failure ms ++ [Failure m])%list, c') ->
  Forall transient ms ->
  Z.of_nat (List.length ms) < retries ->
  has_marker m ->
  exists w',
    chat_with_gemini generate history retries w
    = (Raise (Exn RuntimeError ("Generative API error: " ++ m)), w')
    /\ cap w' = c'
    /\ events w' = (events w ++ retry_trace p 1 ms ++ [EvCall p (Failure m)])%list.
Proof.
  intros Ha Hask Hms Hlt Hm.
  rewrite <- (length_map Failure ms) in Hask.
  apply ask_snoc in Hask as (c1 & Hask & Hg). rewrite length_map in Hask.
  destruct (chat_transients history p retries ms w c1 Ha Hask Hms Hlt)
    as (w1 & -> & Hcap & Hev).
  rewrite range_cons by lia. cbn [retry_loop]. unfold bind.
  rewrite <- Hcap in Hg. rewrite (attempt_fatal p _ _ _ w1 m c' Hg Hm).
  eexists. repeat split. cbn [events]. now rewrite Hev, <- app_assoc.
Qed.

(** C3. Retries exhausted: when every attempt of a budget of at least one
    fails with a transient message, the controller raises after as many
    calls as the budget allows, and what it raises is never the error of
    the non-retryable case. *)
Theorem retries_exhausted history p retries ms c' (w : world Cap) :
  assemble history = Return p ->
  1 <= retries ->
  ask generate (cap w) p (Z.to_nat retries) = (map Failure ms, c') ->
  Forall transient ms ->
  exists w',
    chat_with_gemini generate history retries w
    = (Raise (retries_error retries (Exn UpstreamError (last ms ""))), w')
    /\ cap w' = c'
    /\ calls (events w') = (calls (events w) ++ repeat p (Z.to_nat retries))%list
    /\ forall e, retries_error retries (Exn UpstreamError (last ms "")) <> api_error e.
Proof.
  intros Ha Hr Hask Hms.
  assert (Hlen : List.length ms = Z.to_nat retries).
  { pose proof (ask_length (cap w) p (Z.to_nat retries)) as Hl.
    rewrite Hask in Hl. cbn [fst] in Hl. now rewrite length_map in Hl. }
  destruct (exists_last (l := ms)) as (ms' & m & ->).
  { intros ->. cbn in Hlen. lia. }
  rewrite last_last. rewrite length_app in Hlen. cbn [List.length] in Hlen.
  apply Forall_app in Hms as [Hms' Hm]. inversion Hm as [|? ? Hm' _]; subst.
  replace (Z.to_nat retries) with (S (List.length (map Failure ms'))) in Hask
    by (rewrite length_map; lia).
  rewrite map_app in Hask. cbn [map] in Hask.
  apply ask_snoc in Hask as (c1 & Hask & Hg). rewrite length_map in Hask.
  destruct (chat_transients history p retries ms' w c1 Ha Hask Hms' ltac:(lia))
    as (w1 & -> & Hcap & Hev).
  rewrite range_cons by lia. cbn [retry_loop]. unfold bind.
  rewrite <- Hcap in Hg.
  assert (Hlast : retries <= Z.of_nat (S (List.length ms'))) by lia.
  rewrite (attempt_exhausted p _ _ _ w1 m c' Hg Hm' Hlast).
  eexists. repeat split.
  - cbn [events]. rewrite Hev, !calls_app, calls_retry_trace.
    replace (Z.to_nat retries) with (List.length ms' + 1)%nat by lia.
    now rewrite repeat_app, app_assoc.
  - intros e. apply errors_differ.
Qed.

(** C4. Backoff schedule: for any history, any budget and any capability,
    what the controller does is a run of transiently failed attempts, each
    followed by a sleep and then by the next attempt, closed by at most
    one last call after which nothing follows; the last call is a reply, a
    credential failure, or a transient failure on the last attempt of the
    budget; and the sleep before retry number k lasts min (2^(k-1)) 10. *)
Theorem backoff_schedule history retries (w : world Cap) :
  exists p ms final,
    events (snd (chat_with_gemini generate history retries w))
    = (events w ++ retry_trace p 1 ms ++ final)%list
    /\ Forall transient ms
    /\ ((ms = [] /\ final = [])
        \/ exists o, final = [EvCall p o]
                     /\ Z.of_nat (S (List.length ms)) <= retries
                     /\ final_attempt retries (S (List.length ms)) o)
    /\ sleeps (events (snd (chat_with_gemini generate history retries w)))
       = (sleeps (events w)
          ++ map (fun k => Z.min (2 ^ (Z.of_nat k - 1)) 10)
               (seq 1 (List.length ms)))%list.
Proof.
  destruct (assemble history) as [p|e] eqn:Ha.
  - destruct (chat_trace history p retries w Ha)
      as (ms & final & Hev & Hms & Hend).
    exists p, ms, final. rewrite Hev. repeat split; [exact Hms | |].
    + destruct Hend as [(-> & -> & _) | Hend]; [now left | now right].
    + rewrite !sleeps_app, sleeps_retry_trace.
      destruct Hend as [(_ & -> & _) | (o & -> & _)]; cbn [sleeps];
        now rewrite app_nil_r.
  - exists "", [], []. unfold chat_with_gemini, bind, lift. rewrite Ha.
    cbn. rewrite !app_nil_r. repeat split; [constructor | now left].
Qed.

(** ** The HTTP boundary *)

(** C8, as the code has it. A request whose body decodes to a JSON object
    never makes the handler raise: the answer is 200 with the payload
    {response: text} when the retry controller returns, and 500 with the
    payload {error: "Internal server error", detail: str(e)} when the
    length of the history or the retry controller raises e. What
    [request.get_json()] raises is raised before the [try] and leaves the
    handler, for the framework to answer. *)
Theorem submit_error_boundary req d (w : world Cap) :
  get_json req = Return (PDict d) ->
  let history :=
    match dict_get "history" d with Some h => h | None => PList [] end in
  (exists resp w',
      handle_submit generate req w = (Return resp, w')
      /\ ((status resp = 200 /\ exists v, payload resp = PDict [("response", v)])
          \/ (status resp = 500
              /\ exists detail,
                  payload resp = PDict [("error", PStr "Internal server error");
                                        ("detail", PStr detail)])))
  /\ (forall n,
        len history = Return n ->
        let w1 :=
          World (cap w) (events w)
            (stdout w ++ ["Received /api/submit request. History length: "
                          ++ str_of_int n]) in
        match chat_with_gemini generate history default_retries w1 with
        | (Return text, w2) =>
            handle_submit generate req w
            = (Return (Response 200 (PDict [("response", text)])), w2)
        | (Raise e, w2) =>
            handle_submit generate req w
            = (Return (Response 500
                         (PDict [("error", PStr "Internal server error");
                                 ("detail", PStr (exn_msg e))])),
               World (cap w2) (events w2)
                 (stdout w2 ++ ["Error in /api/submit: " ++ exn_msg e]))
        end)
  /\ (forall req' e,
        get_json req' = Raise e ->
        handle_submit generate req' w = (Raise e, w)).
Proof.
  intros Hreq history.
  unfold handle_submit, bind, lift, try_except, print, ret, jsonify.
  rewrite Hreq. cbn [get]. fold history. split; [|split].
  - destruct (len history) as [n|e].
    + cbn [cap events stdout].
      destruct (chat_with_gemini generate history default_retries _)
        as [[text|e] w2]; eexists; eexists; (split; [reflexivity|]);
        cbn [status payload]; eauto.
    + eexists; eexists; (split; [reflexivity|]); cbn [status payload]; eauto.
  - intros n ->. cbn [cap events stdout].
    destruct (chat_with_gemini generate history default_retries _)
      as [[text|e] w2]; reflexivity.
  - now intros req' e ->.
Qed.

(** X9. A budget below 1 makes no attempt: the loop body never runs and the
    function ends without [return]. *)
Lemma empty_budget history p retries (w : world Cap) :
  assemble history = Return p ->
  retries < 1 ->
  chat_with_gemini generate history retries w = (Return PNone, w).
Proof.
  intros Ha Hr. rewrite (chat_with_gemini_loop _ _ _ _ Ha).
  now rewrite range_empty by lia.
Qed.

(** ** More on the retry controller *)



(** What any run adds to the trace, whether the prompt could be assembled
    or not. *)
Lemma chat_shape history retries (w : world Cap) :
  exists p ms final,
    events (snd (chat_with_gemini generate history retries w))
    = (events w ++ retry_trace p 1 ms ++ final)%list
    /\ ((ms = [] /\ final = [])
        \/ exists o, final = [EvCall p o]
                     /\ Z.of_nat (S (List.length ms)) <= retries).
Proof.
  destruct (assemble history) as [p|e] eqn:Ha.
  - destruct (chat_trace history p retries w Ha)
      as (ms & final & Hev & _ & Hend).
    exists p, ms, final. split; [exact Hev|].
    destruct Hend as [(-> & -> & _) | (o & -> & Hle & _)];
      [now left | right; now exists o].
  - exists "", [], []. unfold chat_with_gemini, bind, lift. rewrite Ha.
    cbn. rewrite app_nil_r. split; [reflexivity | now left].
Qed.


Lemma chat_reply_run history p retries ms t c' (w : world Cap) :
  assemble history = Return p ->
  ask generate (cap w) p (S (List.length ms))
  = ((map Failure ms ++ [Text t])%list, c') ->
  Forall transient ms ->
  Z.of_nat (List.length ms) < retries ->
  exists w',
    chat_with_gemini generate history retries w = (Return (PStr (strip t)), w')
    /\ cap w' = c'
    /\ events w' = (events w ++ retry_trace p 1 ms ++ [EvCall p (Text t)])%list.
Proof.
  intros Ha Hask Hms Hlt.
  rewrite <- (length_map Failure ms) in Hask.
  apply ask_snoc in Hask as (c1 & Hask & Hg). rewrite length_map in Hask.
  destruct (chat_transients history p retries ms w c1 Ha Hask Hms Hlt)
    as (w1 & -> & Hcap & Hev).
  rewrite range_cons by lia. cbn [retry_loop]. unfold bind.
  rewrite <- Hcap in Hg. rewrite (attempt_text p _ _ _ w1 t c' Hg).
  eexists. repeat split. cbn [events]. now rewrite Hev, <- app_assoc.
Qed.

Lemma chat_fatal_run history p retries ms m c' (w : world Cap) :
  assemble history = Return p ->
  ask generate (cap w) p (S (List.length ms))
  = ((map Failure ms ++ [Failure m])%list, c') ->
  Forall transient ms ->
  Z.of_nat (List.length ms) < retries ->
  has_marker m ->
  exists w',
    chat_with_gemini generate history retries w
    = (Raise (api_error (Exn UpstreamError m)), w')
    /\ cap w' = c'
    /\ events w' = (events w ++ retry_trace p 1 ms ++ [EvCall p (Failure m)])%list.
Proof.
  intros Ha Hask Hms Hlt Hm.
  rewrite <- (length_map Failure ms) in Hask.
  apply ask_snoc in Hask as (c1 & Hask & Hg). rewrite length_map in Hask.
  destruct (chat_transients history p retries ms w c1 Ha Hask Hms Hlt)
    as (w1 & -> & Hcap & Hev).
  rewrite range_cons by lia. cbn [retry_loop]. unfold bind.
  rewrite <- Hcap in Hg. rewrite (attempt_fatal p _ _ _ w1 m c' Hg Hm).
  eexists. repeat split. cbn [events]. now rewrite Hev, <- app_assoc.
Qed.

Lemma chat_exhausted_run history p retries ms m c' (w : world Cap) :
  assemble history = Return p ->
  ask generate (cap w) p (S (List.length ms))
  = ((map Failure ms ++ [Failure m])%list, c') ->
  Forall transient ms ->
  transient m ->
  Z.of_nat (S (List.length ms)) = retries ->
  exists w',
    chat_with_gemini generate history retries w
    = (Raise (retries_error retries (Exn UpstreamError m)), w')
    /\ cap w' = c'
    /\ events w' = (events w ++ retry_trace p 1 ms ++ [EvCall p (Failure m)])%list.
Proof.
  intros Ha Hask Hms Hm Hlen.
  rewrite <- (length_map Failure ms) in Hask.
  apply ask_snoc in Hask as (c1 & Hask & Hg). rewrite length_map in Hask.
  destruct (chat_transients history p retries ms w c1 Ha Hask Hms ltac:(lia))
    as (w1 & -> & Hcap & Hev).
  rewrite range_cons by lia. cbn [retry_loop]. unfold bind.
  rewrite <- Hcap in Hg.
  assert (Hlast : retries <= Z.of_nat (S (List.length ms))) by lia.
  rewrite (attempt_exhausted p _ _ _ w1 m c' Hg Hm Hlast).
  eexists. repeat split. cbn [events]. now rewrite Hev, <- app_assoc.
Qed.

(** X6. With any budget, transient failures on attempts within the budget
    followed by a reply give the stripped text of that reply: one call per
    failure with its sleep, then the call that succeeds, and nothing
    after it. *)
Theorem retry_until_reply history p retries ms t c' (w : world Cap) :
  assemble history = Return p ->
  ask generate (cap w) p (S (List.length ms))
  = ((map Failure ms ++ [Text t])%list, c') ->
  Forall transient ms ->
  Z.of_nat (List.length ms) < retries ->
  exists w',
    chat_with_gemini generate history retries w = (Return (PStr (strip t)), w')
    /\ cap w' = c'
    /\ events w' = (events w ++ retry_trace p 1 ms ++ [EvCall p (Text t)])%list.
Proof.
  intros Ha Hask Hms Hlt.
  rewrite <- (length_map Failure ms) in Hask.
  apply ask_snoc in Hask as (c1 & Hask & Hg). rewrite length_map in Hask.
  destruct (chat_transients history p retries ms w c1 Ha Hask Hms Hlt)
    as (w1 & -> & Hcap & Hev).
  rewrite range_cons by lia. cbn [retry_loop]. unfold bind.
  rewrite <- Hcap in Hg. rewrite (attempt_text p _ _ _ w1 t c' Hg).
  exists (World c' (events w1 ++ [EvCall p (Text t)]) (stdout w1)).
  repeat split. cbn [events]. now rewrite Hev, <- app_assoc.
Qed.

Lemma retry_loop_result p retries :
  forall n k (w : world Cap),
    n = Z.to_nat (retries + 1 - Z.of_nat k) ->
    (1 <= k)%nat ->
    let r := fst (retry_loop generate p retries
                    (range (Z.of_nat k) (retries + 1)) (backoff_before k) w) in
    (retries < Z.of_nat k /\ r = Return PNone)
    \/ (exists t, r = Return (PStr (strip t)))
    \/ (exists m, has_marker m /\ r = Raise (api_error (Exn UpstreamError m)))
    \/ (exists m, transient m
                  /\ r = Raise (retries_error retries (Exn UpstreamError m))).
Proof.
  induction n as [|n IH]; intros k w Hn Hk; cbn zeta.
  - rewrite range_empty by lia. left. split; [lia | reflexivity].
  - rewrite range_cons by lia. cbn [retry_loop]. unfold bind.
    destruct (generate (cap w) p) as [[t|m] c] eqn:Hg.
    + rewrite (attempt_text p _ _ _ w t c Hg). right. left.
      exists t. reflexivity.
    + destruct (non_retryable (lower m)) eqn:Hm.
      * apply has_marker_iff in Hm.
        rewrite (attempt_fatal p _ _ _ w m c Hg Hm).
        right. right. left. exists m. split; [exact Hm | reflexivity].
      * apply transient_iff in Hm.
        destruct (Z.lt_ge_cases (Z.of_nat k) retries) as [Hlt | Hge].
        -- destruct (attempt_retry p retries _ (backoff_before k) w m c Hg Hm Hlt)
             as [out ->].
           rewrite backoff_before_S by exact Hk.
           replace (Z.of_nat k + 1) with (Z.of_nat (S k)) by lia.
           set (w1 := World c _ _).
           destruct (IH (S k) w1 ltac:(lia) ltac:(lia)) as [[Hbad _] | Hrest];
             [lia | right; exact Hrest].
        -- rewrite (attempt_exhausted p _ _ _ w m c Hg Hm Hge).
           right. right. right. exists m. split; [exact Hm | reflexivity].
Qed.

(** X8. With a budget of at least 1 the controller never returns None: it
    returns text with no whitespace at either end, or raises one of its
    two RuntimeErrors; what the capability raised never leaves it as it
    was. *)
Theorem chat_outcome history p retries (w : world Cap) :
  assemble history = Return p ->
  1 <= retries ->
  let r := fst (chat_with_gemini generate history retries w) in
  (exists s, r = Return (PStr s)
             /\ starts_with_space s = false /\ ends_with_space s = false)
  \/ (exists m, has_marker m
                /\ r = Raise (Exn RuntimeError ("Generative API error: " ++ m)))
  \/ (exists m, transient m
                /\ r = Raise (Exn RuntimeError
                                ("Generative API failed after "
                                 ++ str_of_int retries ++ " attempts: " ++ m))).
Proof.
  intros Ha Hr. cbn zeta. rewrite (chat_with_gemini_loop _ _ _ _ Ha).
  destruct (retry_loop_result p retries
              (Z.to_nat (retries + 1 - Z.of_nat 1)) 1 w eq_refl (le_n 1))
    as [[Hbad _] | [(t & Ht) | [(m & Hm & Hres) | (m & Hm & Hres)]]].
  - cbn in Hbad. lia.
  - left. exists (strip t). split; [exact Ht|].
    destruct (strip_spec t) as (_ & _ & _ & _ & _ & Hs & He). now split.
  - right. left. now exists m.
  - right. right. now exists m.
Qed.

(** X5. A history list with an item that is not a JSON object makes the
    controller raise AttributeError before it calls the capability: the
    world is left as it was. *)
Theorem not_dict_no_call (msgs : list pyval) :
  Exists (fun v => is_dict v = false) msgs ->
  exists e,
    exn_cls e = AttributeError
    /\ forall retries (w : world Cap),
         chat_with_gemini generate (PList msgs) retries w = (Raise e, w).
Proof.
  intros H. destruct (build_conversation_not_dict msgs H "") as (e & He & Hc).
  exists e. split; [exact Hc|]. intros retries w.
  unfold chat_with_gemini, bind, lift, assemble. cbn [iter and_then].
  now rewrite He.
Qed.

(** ** More on the handler *)

Lemma assemble_len history p :
  assemble history = Return p -> exists n, len history = Return n.
Proof.
  destruct history; cbn; try discriminate; intros _; eexists; reflexivity.
Qed.

(** The handler on a body that is a JSON object whose history has a
    length: the line it prints, the run of the controller, the answer. *)
Lemma handle_submit_run req d n (w : world Cap) :
  get_json req = Return (PDict d) ->
  len match dict_get "history" d with Some h => h | None => PList [] end
  = Return n ->
  handle_submit generate req w
  = let run :=
      chat_with_gemini generate
        match dict_get "history" d with Some h => h | None => PList [] end
        default_retries
        (World (cap w) (events w)
           (stdout w ++ ["Received /api/submit request. History length: "
                         ++ str_of_int n])) in
    match fst run with
    | Return text =>
        (Return (Response 200 (PDict [("response", text)])), snd run)
    | Raise e =>
        (Return (Response 500 (error_payload (exn_msg e))),
         World (cap (snd run)) (events (snd run))
           (stdout (snd run) ++ ["Error in /api/submit: " ++ exn_msg e]))
    end.
Proof.
  intros Hreq Hlen.
  unfold handle_submit, bind, lift, try_except, print, ret, jsonify.
  rewrite Hreq. cbn [get]. rewrite Hlen. cbn [cap events stdout].
  destruct (chat_with_gemini generate _ default_retries _) as [[text|e] w2];
    reflexivity.
Qed.

(** X10. A request whose history is assembled and whose capability replies
    after fewer than three transient failures is answered 200 with the
    stripped text of the reply. *)
Theorem submit_reply req d history p ms t c' (w : world Cap) :
  get_json req = Return (PDict d) ->
  dict_get "history" d = Some history ->
  assemble history = Return p ->
  ask generate (cap w) p (S (List.length ms))
  = ((map Failure ms ++ [Text t])%list, c') ->
  Forall transient ms ->
  (List.length ms < 3)%nat ->
  exists w',
    handle_submit generate req w
    = (Return (Response 200 (PDict [("response", PStr (strip t))])), w')
    /\ cap w' = c'
    /\ events w' = (events w ++ retry_trace p 1 ms ++ [EvCall p (Text t)])%list.
Proof.
  intros Hreq Hd Ha Hask Hms Hlt.
  destruct (assemble_len _ _ Ha) as [n Hn].
  rewrite (handle_submit_run req d n w Hreq); rewrite Hd; [|exact Hn].
  set (w1 := World (cap w) (events w) _).
  destruct (chat_reply_run history p default_retries ms t c' w1 Ha Hask Hms
              ltac:(unfold default_retries; lia))
    as (w' & -> & Hcap & Hev).
  cbn zeta. cbn [fst snd]. now exists w'.
Qed.

(** X11. A request whose capability fails with a credential marker on one of
    the three attempts is answered 500, the detail being "Generative API
    error: " followed by the message of the capability. *)
Theorem submit_credential_failure req d history p ms m c' (w : world Cap) :
  get_json req = Return (PDict d) ->
  dict_get "history" d = Some history ->
  assemble history = Return p ->
  ask generate (cap w) p (S (List.length ms))
  = ((map Failure ms ++ [Failure m])%list, c') ->
  Forall transient ms ->
  (List.length ms < 3)%nat ->
  has_marker m ->
  exists w',
    handle_submit generate req w
    = (Return (Response 500 (error_payload ("Generative API error: " ++ m))), w')
    /\ cap w' = c'
    /\ events w' = (events w ++ retry_trace p 1 ms ++ [EvCall p (Failure m)])%list.
Proof.
  intros Hreq Hd Ha Hask Hms Hlt Hm.
  destruct (assemble_len _ _ Ha) as [n Hn].
  rewrite (handle_submit_run req d n w Hreq); rewrite Hd; [|exact Hn].
  set (w1 := World (cap w) (events w) _).
  destruct (chat_fatal_run history p default_retries ms m c' w1 Ha Hask Hms
              ltac:(unfold default_retries; lia) Hm)
    as (w' & -> & Hcap & Hev).
  cbn zeta. cbn [fst snd]. eexists. now repeat split.
Qed.

(** X12. A request whose capability fails three times with transient messages
    is answered 500 after the third call, the detail being "Generative
    API failed after 3 attempts: " followed by the last message. *)
Theorem submit_exhausted req d history p m1 m2 m3 c' (w : world Cap) :
  get_json req = Return (PDict d) ->
  dict_get "history" d = Some history ->
  assemble history = Return p ->
  ask generate (cap w) p 3 = ([Failure m1; Failure m2; Failure m3], c') ->
  transient m1 -> transient m2 -> transient m3 ->
  exists w',
    handle_submit generate req w
    = (Return (Response 500
                 (error_payload
                    ("Generative API failed after 3 attempts: " ++ m3))), w')
    /\ cap w' = c'
    /\ events w' = (events w ++
                    [EvCall p (Failure m1); EvSleep 1;
                     EvCall p (Failure m2); EvSleep 2;
                     EvCall p (Failure m3)])%list.
Proof.
  intros Hreq Hd Ha Hask H1 H2 H3.
  destruct (assemble_len _ _ Ha) as [n Hn].
  rewrite (handle_submit_run req d n w Hreq); rewrite Hd; [|exact Hn].
  set (w1 := World (cap w) (events w) _).
  destruct (chat_exhausted_run history p default_retries [m1; m2] m3 c' w1 Ha
              Hask (Forall_cons _ H1 (Forall_cons _ H2 (Forall_nil _)))
              H3 eq_refl)
    as (w' & -> & Hcap & Hev).
  cbn zeta. cbn [fst snd]. eexists. now repeat split.
Qed.

(** X13. A body that is a JSON object with no history is handled as an empty
    history: the capability is called with the empty prompt. *)
Theorem submit_no_history req d (w : world Cap) :
  get_json req = Return (PDict d) ->
  dict_get "history" d = None ->
  exists resp w' o rest,
    handle_submit generate req w = (Return resp, w')
    /\ events w' = (events w ++ EvCall "" o :: rest)%list.
Proof.
  intros Hreq Hd.
  rewrite (handle_submit_run req d 0 w Hreq); rewrite Hd; [|reflexivity].
  set (w1 := World (cap w) (events w) _).
  destruct (chat_trace (PList []) "" default_retries w1 eq_refl)
    as (ms & final & Hev & _ & Hend).
  destruct Hend as [(_ & _ & Hbad) | (o & -> & _)];
    [unfold default_retries in Hbad; lia|].
  assert (Hfirst : exists o' rest,
             (retry_trace "" 1 ms ++ [EvCall "" o])%list = EvCall "" o' :: rest).
  { destruct ms as [|m ms]; cbn [retry_trace app]; eauto. }
  destruct Hfirst as (o' & rest & Hfirst). rewrite Hfirst in Hev.
  cbn zeta.
  destruct (chat_with_gemini generate (PList []) default_retries w1)
    as [[text|e] w2]; cbn [fst snd events] in *;
    eexists; eexists; exists o', rest; (split; [reflexivity | exact Hev]).
Qed.

(** X14. Whatever the request, the handler calls the capability at most three
    times and sleeps for 1, then for 2, at most. *)
Theorem submit_bounded req (w : world Cap) :
  exists added,
    events (snd (handle_submit generate req w)) = (events w ++ added)%list
    /\ (List.length (calls added) <= 3)%nat
    /\ (sleeps added = [] \/ sleeps added = [1] \/ sleeps added = [1; 2]).
Proof.
  assert (Hnone : forall r : result response,
             exists added,
               events (snd (r, w)) = (events w ++ added)%list
               /\ (List.length (calls added) <= 3)%nat
               /\ (sleeps added = [] \/ sleeps added = [1]
                   \/ sleeps added = [1; 2])).
  { intros r. exists []. cbn. rewrite app_nil_r. repeat split; [lia | now left]. }
  destruct (get_json req) as [data|e] eqn:Hreq.
  2:{ unfold handle_submit, bind, lift. rewrite Hreq. apply Hnone. }
  destruct data as [| b | z | r | t | l | d];
    try (unfold handle_submit, bind, lift; rewrite Hreq; apply Hnone).
  destruct (len match dict_get "history" d with Some h => h | None => PList [] end)
    as [n|e] eqn:Hlen.
  2:{ unfold handle_submit, bind, lift, try_except, print, ret.
      rewrite Hreq. cbn [get]. rewrite Hlen. cbn [cap events stdout].
      exists []. cbn. rewrite app_nil_r. repeat split; [lia | now left]. }
  rewrite (handle_submit_run req d n w Hreq Hlen).
  set (history := match dict_get "history" d with Some h => h | None => PList [] end).
  set (w1 := World (cap w) (events w) _).
  destruct (chat_shape history default_retries w1) as (p & ms & final & Hev & Hend).
  exists (retry_trace p 1 ms ++ final)%list.
  split.
  - cbn zeta.
    destruct (chat_with_gemini generate history default_retries w1)
      as [[text|e] w2]; cbn [fst snd events] in *; exact Hev.
  - rewrite calls_app, sleeps_app, calls_retry_trace, sleeps_retry_trace.
    rewrite length_app, repeat_length.
    destruct Hend as [(-> & ->) | (o & -> & Hle)];
      cbn [List.length calls sleeps seq map app].
    + split; [lia | now left].
    + unfold default_retries in Hle. split; [lia|]. rewrite app_nil_r.
      destruct ms as [|m1 [|m2 [|m3 ms]]]; cbn [List.length] in Hle;
        [now left | right; now left | right; now right | lia].
Qed.

(** X15. A history that cannot be assembled (not a list, a text or an object,
    or with an item that is not an object) is answered 500 and the
    capability is not called. *)
Theorem submit_malformed req d history (w : world Cap) :
  get_json req = Return (PDict d) ->
  dict_get "history" d = Some history ->
  (forall p, assemble history <> Return p) ->
  exists detail w',
    handle_submit generate req w
    = (Return (Response 500 (error_payload detail)), w')
    /\ cap w' = cap w
    /\ events w' = events w.
Proof.
  intros Hreq Hd Hbad.
  destruct (len history) as [n|e] eqn:Hlen.
  - rewrite (handle_submit_run req d n w Hreq); rewrite Hd; [|exact Hlen].
    unfold chat_with_gemini, bind at 1, lift.
    destruct (assemble history) as [p|e] eqn:Ha; [now destruct (Hbad p)|].
    cbn zeta. cbn [fst snd cap events]. eexists; eexists. now repeat split.
  - unfold handle_submit, bind, lift, try_except, print, ret, jsonify.
    rewrite Hreq. cbn [get]. rewrite Hd, Hlen. cbn [cap events stdout].
    eexists; eexists. now repeat split.
Qed.

End Gateway.

Lemma empty_budget_witness :
  chat_with_gemini (always_fails "timeout") (PList hi_hello) 0 fresh
  = (Return PNone, fresh).
Proof.
  apply (empty_budget nat (always_fails "timeout") (PList hi_hello)
           hi_hello_prompt 0 fresh); [reflexivity | lia].
Defined.

Lemma retry_until_reply_witness :
  exists w',
    chat_with_gemini (fails_first 4) (PList hi_hello) 5 fresh
    = (Return (PStr "hello"), w')
    /\ cap w' = 5%nat
    /\ events w'
       = ([] ++ retry_trace hi_hello_prompt 1
                  ["timeout"; "timeout"; "timeout"; "timeout"]
             ++ [EvCall hi_hello_prompt (Text "  hello  ")])%list.
Proof.
  apply (retry_until_reply nat (fails_first 4) (PList hi_hello) hi_hello_prompt
           5 ["timeout"; "timeout"; "timeout"; "timeout"] "  hello  " 5%nat
           fresh); [reflexivity | reflexivity | | reflexivity].
  repeat constructor; apply transient_iff; reflexivity.
Defined.

Lemma chat_outcome_witness :
  let r := fst (chat_with_gemini fails_twice (PList hi_hello) 2 fresh) in
  (exists s, r = Return (PStr s)
             /\ starts_with_space s = false /\ ends_with_space s = false)
  \/ (exists m, has_marker m
                /\ r = Raise (Exn RuntimeError ("Generative API error: " ++ m)))
  \/ (exists m, transient m
                /\ r = Raise (Exn RuntimeError
                                ("Generative API failed after "
                                 ++ str_of_int 2 ++ " attempts: " ++ m))).
Proof.
  apply (chat_outcome nat fails_twice (PList hi_hello) hi_hello_prompt 2 fresh);
    [reflexivity | lia].
Defined.

Lemma not_dict_no_call_witness :
  exists e,
    exn_cls e = AttributeError
    /\ forall retries (w : world nat),
         chat_with_gemini fails_twice
           (PList (hi_hello ++ [PStr "hi"])) retries w = (Raise e, w).
Proof.
  apply (not_dict_no_call nat fails_twice (hi_hello ++ [PStr "hi"])).
  apply Exists_exists. exists (PStr "hi"). split; [|reflexivity].
  cbn. auto.
Defined.

Lemma submit_reply_witness :
  exists w',
    handle_submit fails_twice
      (Request (Return (PDict [("history", PList hi_hello)]))) fresh
    = (Return (Response 200 (PDict [("response", PStr "hello")])), w')
    /\ cap w' = 3%nat
    /\ events w'
       = ([] ++ retry_trace hi_hello_prompt 1 ["timeout"; "timeout"]
             ++ [EvCall hi_hello_prompt (Text "  hello  ")])%list.
Proof.
  apply (submit_reply nat fails_twice
           (Request (Return (PDict [("history", PList hi_hello)])))
           [("history", PList hi_hello)] (PList hi_hello) hi_hello_prompt
           ["timeout"; "timeout"] "  hello  " 3%nat fresh);
    try reflexivity; [|cbn; lia].
  repeat constructor; apply transient_iff; reflexivity.
Defined.

Lemma submit_credential_failure_witness :
  exists w',
    handle_submit (always_fails "Permission denied")
      (Request (Return (PDict [("history", PList hi_hello)]))) fresh
    = (Return (Response 500
                 (error_payload "Generative API error: Permission denied")), w')
    /\ cap w' = 1%nat
    /\ events w'
       = ([] ++ [] ++ [EvCall hi_hello_prompt (Failure "Permission denied")])%list.
Proof.
  apply (submit_credential_failure nat (always_fails "Permission denied")
           (Request (Return (PDict [("history", PList hi_hello)])))
           [("history", PList hi_hello)] (PList hi_hello) hi_hello_prompt
           [] "Permission denied" 1%nat fresh);
    try reflexivity; [constructor | cbn; lia |].
  apply has_marker_iff. reflexivity.
Defined.

Lemma submit_exhausted_witness :
  exists w',
    handle_submit (always_fails "timeout")
      (Request (Return (PDict [("history", PList hi_hello)]))) fresh
    = (Return (Response 500
                 (error_payload
                    "Generative API failed after 3 attempts: timeout")), w')
    /\ cap w' = 3%nat
    /\ events w' = ([] ++
                    [EvCall hi_hello_prompt (Failure "timeout"); EvSleep 1;
                     EvCall hi_hello_prompt (Failure "timeout"); EvSleep 2;
                     EvCall hi_hello_prompt (Failure "timeout")])%list.
Proof.
  apply (submit_exhausted nat (always_fails "timeout")
           (Request (Return (PDict [("history", PList hi_hello)])))
           [("history", PList hi_hello)] (PList hi_hello) hi_hello_prompt
           "timeout" "timeout" "timeout" 3%nat fresh);
    try reflexivity; apply transient_iff; reflexivity.
Defined.

Lemma submit_no_history_witness :
  exists resp w' o rest,
    handle_submit fails_twice (Request (Return (PDict []))) fresh
    = (Return resp, w')
    /\ events w' = ([] ++ EvCall "" o :: rest)%list.
Proof.
  apply (submit_no_history nat fails_twice (Request (Return (PDict []))) []
           fresh); reflexivity.
Defined.

Lemma submit_malformed_witness :
  exists detail w',
    handle_submit fails_twice
      (Request (Return (PDict [("history", PInt 5)]))) fresh
    = (Return (Response 500 (error_payload detail)), w')
    /\ cap w' = cap fresh
    /\ events w' = events fresh.
Proof.
  apply (submit_malformed nat fails_twice
           (Request (Return (PDict [("history", PInt 5)])))
           [("history", PInt 5)] (PInt 5) fresh); try reflexivity.
  intros p. discriminate.
Defined.

Lemma retry_then_success_witness :
  assemble (PList hi_hello) = Return hi_hello_prompt
  /\ ask fails_twice (cap fresh) hi_hello_prompt 3
     = ([Failure "timeout"; Failure "timeout"; Text "  hello  "], 3%nat)
  /\ exists w',
       chat_with_gemini fails_twice (PList hi_hello) default_retries fresh
       = (Return (PStr "hello"), w')
       /\ cap w' = 3%nat
       /\ events w' = ([] ++
                       [EvCall hi_hello_prompt (Failure "timeout"); EvSleep 1;
                        EvCall hi_hello_prompt (Failure "timeout"); EvSleep 2;
                        EvCall hi_hello_prompt (Text "  hello  ")])%list.
Proof.
  split; [reflexivity|]. split; [reflexivity|].
  apply (retry_then_success nat fails_twice (PList hi_hello) hi_hello_prompt
           "timeout" "timeout" "  hello  " 3%nat fresh);
    try reflexivity; apply transient_iff; reflexivity.
Defined.

Lemma non_retryable_aborts_witness :
  has_marker "HTTP 403 Forbidden"
  /\ exists w',
       chat_with_gemini (always_fails "HTTP 403 Forbidden") (PList hi_hello)
         default_retries fresh
       = (Raise (Exn RuntimeError "Generative API error: HTTP 403 Forbidden"), w')
       /\ cap w' = 1%nat
       /\ events w'
          = ([] ++ [] ++ [EvCall hi_hello_prompt (Failure "HTTP 403 Forbidden")])%list.
Proof.
  assert (H : has_marker "HTTP 403 Forbidden").
  { exists "403", "HTTP ", "403", " Forbidden". simpl. auto. }
  split; [exact H|].
  apply (non_retryable_aborts nat (always_fails "HTTP 403 Forbidden")
           (PList hi_hello) hi_hello_prompt default_retries []
           "HTTP 403 Forbidden" 1%nat fresh);
    [reflexivity | reflexivity | constructor | reflexivity | exact H].
Defined.

Lemma retries_exhausted_witness :
  ask (always_fails "timeout") (cap fresh) hi_hello_prompt 3
  = (map Failure ["timeout"; "timeout"; "timeout"], 3%nat)
  /\ exists w',
       chat_with_gemini (always_fails "timeout") (PList hi_hello) 3 fresh
       = (Raise (Exn RuntimeError
                   "Generative API failed after 3 attempts: timeout"), w')
       /\ cap w' = 3%nat
       /\ calls (events w') = ([] ++ repeat hi_hello_prompt 3)%list
       /\ forall e,
            retries_error 3 (Exn UpstreamError "timeout") <> api_error e.
Proof.
  split; [reflexivity|].
  apply (retries_exhausted nat (always_fails "timeout") (PList hi_hello)
           hi_hello_prompt 3 ["timeout"; "timeout"; "timeout"] 3%nat fresh);
    [reflexivity | lia | reflexivity |].
  repeat constructor; apply transient_iff; reflexivity.
Defined.

Lemma submit_error_boundary_witness :
  get_json (Request (Return (PDict [("history", PList hi_hello)])))
  = Return (PDict [("history", PList hi_hello)])
  /\ exists resp w',
       handle_submit (always_fails "HTTP 403 Forbidden")
         (Request (Return (PDict [("history", PList hi_hello)]))) fresh
       = (Return resp, w')
       /\ ((status resp = 200 /\ exists v, payload resp = PDict [("response", v)])
           \/ (status resp = 500
               /\ exists detail,
                   payload resp = PDict [("error", PStr "Internal server error");
                                         ("detail", PStr detail)])).
Proof.
  split; [reflexivity|].
  exact (proj1 (submit_error_boundary nat (always_fails "HTTP 403 Forbidden")
                  (Request (Return (PDict [("history", PList hi_hello)])))
                  [("history", PList hi_hello)] fresh eq_refl)).
Defined.

(** C8 does not hold for every request: what [request.get_json()] raises
    on a body that is not JSON, and the [AttributeError] of [data.get] on a
    body that is JSON but not an object, leave the handler. *)
Lemma submit_failure_leaves_handler :
  handle_submit fails_twice (Request (Raise bad_request)) fresh
  = (Raise bad_request, fresh)
  /\ handle_submit fails_twice (Request (Return (PList []))) fresh
     = (Raise (Exn AttributeError "'list' object has no attribute 'get'"), fresh).
Proof. split; reflexivity. Qed.

Lemma prompt_assembly_witness :
  Forall2 is_turn hi_hello [Turn "user" "hi"; Turn "bot" "hello"]
  /\ assemble (PList hi_hello) = Return hi_hello_prompt.
Proof.
  assert (H : Forall2 is_turn hi_hello [Turn "user" "hi"; Turn "bot" "hello"]).
  { repeat constructor; eexists; repeat split; reflexivity. }
  split; [exact H|].
  exact (proj1 (prompt_assembly nat fails_twice hi_hello
                  [Turn "user" "hi"; Turn "bot" "hello"] H)).
Defined.

End AppFacts.

(** * Facts about charan.py *)

Module CharanFacts.
Import Py PyFacts Charan.

(** ** The table *)

Lemma select_response_miss q t :
  ~ cached q t -> select_response q t = [].
Proof.
  unfold select_response, cached. intros H.
  induction t as [|r t IH]; [reflexivity|]. cbn [filter].
  destruct (String.eqb (question r) q) eqn:Hq.
  - apply String.eqb_eq in Hq. exfalso. apply H. exists r. split; [now left | exact Hq].
  - apply IH. intros (r' & Hin & Hr'). apply H. exists r'. split; [now right | exact Hr'].
Qed.

Lemma select_response_hit q t :
  cached q t ->
  exists r rest, In r t /\ question r = q
                 /\ select_response q t = answer r :: rest.
Proof.
  unfold select_response, cached. intros (r0 & Hin & Hq0).
  induction t as [|r t IH]; [destruct Hin|]. cbn [filter].
  destruct (String.eqb (question r) q) eqn:Hq.
  - apply String.eqb_eq in Hq. exists r. eexists. cbn [map].
    repeat split; [now left | exact Hq].
  - destruct Hin as [-> | Hin].
    + apply String.eqb_neq in Hq. contradiction.
    + destruct (IH Hin) as (r' & rest & Hin' & Hq' & Hsel).
      exists r', rest. repeat split; [now right | exact Hq' | exact Hsel].
Qed.

Lemma cached_insert q a t q' :
  cached q' (insert q a t) <-> cached q' t \/ q' = q.
Proof.
  unfold cached, insert. split.
  - intros (r & Hin & Hq). apply in_app_or in Hin as [Hin | [<- | []]].
    + left. now exists r.
    + right. now rewrite <- Hq.
  - intros [(r & Hin & Hq) | ->].
    + exists r. split; [apply in_or_app; now left | exact Hq].
    + eexists. split; [apply in_or_app; right; now left | reflexivity].
Qed.

Lemma cached_questions q t : cached q t <-> In q (map question t).
Proof.
  unfold cached. rewrite in_map_iff. split; intros (r & H1 & H2); now exists r.
Qed.

Lemma insert_unique q a t :
  NoDup (map question t) -> ~ cached q t -> NoDup (map question (insert q a t)).
Proof.
  intros Hnd Hq. unfold insert. rewrite map_app. cbn [map question].
  apply NoDup_app; [exact Hnd | repeat constructor; intros [] |].
  intros q' Hin [<- | []]. apply Hq. now apply cached_questions.
Qed.

Section Gateway.

Variable Cap : Type.
Variable generate : Cap -> string -> outcome * Cap.

(** ** One request *)

Lemma get_response_hit q (w : world Cap) :
  cached q (db w) ->
  exists r, In r (db w) /\ question r = q
            /\ get_response generate q w = (Return (reply (answer r)), w).
Proof.
  intros H. destruct (select_response_hit q (db w) H)
    as (r & rest & Hin & Hq & Hsel).
  exists r. repeat split; [exact Hin | exact Hq|].
  unfold get_response, bind, execute_select. now rewrite Hsel.
Qed.

Lemma get_response_miss q (w : world Cap) :
  ~ cached q (db w) ->
  get_response generate q w =
  match generate (cap w) q with
  | (Text t, c) =>
      (Return (reply (strip t)),
       World c (calls w ++ [q])%list (insert q (strip t) (db w)))
  | (Failure msg, c) =>
      (Raise (Exn UpstreamError msg), World c (calls w ++ [q])%list (db w))
  end.
Proof.
  intros H. unfold get_response, bind, execute_select.
  rewrite (select_response_miss q (db w) H). cbn [fetchone].
  unfold chat_with_gemini. now destruct (generate (cap w) q) as [[t|m] c].
Qed.

Lemma not_cached_dec q (t : table) : {cached q t} + {~ cached q t}.
Proof.
  destruct (in_dec string_dec q (map question t)) as [H | H];
    [left | right]; now rewrite cached_questions.
Defined.

Lemma get_response_db q (w : world Cap) :
  db (snd (get_response generate q w)) = db w
  \/ (~ cached q (db w)
      /\ exists a, db (snd (get_response generate q w)) = insert q a (db w)).
Proof.
  destruct (not_cached_dec q (db w)) as [H | H].
  - destruct (get_response_hit q w H) as (r & _ & _ & ->). now left.
  - rewrite (get_response_miss q w H).
    destruct (generate (cap w) q) as [[t|m] c]; [right | now left].
    split; [exact H | now exists (strip t)].
Qed.

(** ** Requests one after the other *)

Lemma serve_app qs qs' (w : world Cap) :
  serve generate (qs ++ qs') w = serve generate qs' (serve generate qs w).
Proof.
  revert w; induction qs as [|q qs IH]; intros w; [reflexivity|].
  cbn [app serve]. apply IH.
Qed.

Lemma serve_unique qs :
  forall w : world Cap,
    NoDup (map question (db w)) ->
    NoDup (map question (db (serve generate qs w))).
Proof.
  induction qs as [|q qs IH]; intros w Hnd; [exact Hnd|].
  cbn [serve]. apply IH.
  destruct (get_response_db q w) as [-> | (Hq & a & ->)];
    [exact Hnd | now apply insert_unique].
Qed.

Lemma serve_extends qs :
  forall w : world Cap,
    exists more, db (serve generate qs w) = (db w ++ more)%list.
Proof.
  induction qs as [|q qs IH]; intros w.
  - exists []. cbn [serve]. now rewrite app_nil_r.
  - cbn [serve]. destruct (IH (snd (get_response generate q w))) as (more & ->).
    destruct (get_response_db q w) as [-> | (_ & a & ->)].
    + now exists more.
    + unfold insert. rewrite <- app_assoc. eexists. reflexivity.
Qed.

(** ** The cache *)

(** C5. Cache hit and miss: when the store has an entry for the question,
    the handler answers with a stored response for it and leaves the
    capability and the store as they were; when it has none, the handler
    calls the capability once, and on a reply adds the pair of the
    question and the response to the store and answers with that
    response. *)
Theorem cache_hit_or_miss q (w : world Cap) :
  (cached q (db w) ->
   exists r, In r (db w) /\ question r = q
             /\ get_response generate q w = (Return (reply (answer r)), w))
  /\ (~ cached q (db w) ->
      match generate (cap w) q with
      | (Text t, c) =>
          get_response generate q w
          = (Return (reply (strip t)),
             World c (calls w ++ [q])%list
               (db w ++ [Row (next_id (db w)) q (strip t)])%list)
      | (Failure msg, c) =>
          get_response generate q w
          = (Raise (Exn UpstreamError msg), World c (calls w ++ [q])%list (db w))
      end).
Proof.
  split; intros H.
  - exact (get_response_hit q w H).
  - rewrite (get_response_miss q w H).
    now destruct (generate (cap w) q) as [[t|m] c].
Qed.

(** C6. Exact-match keys: for two questions that are not the same text, a
    store whose entries are all for the first never answers the second,
    which goes to the capability; and from an empty store a request with
    each of the two calls the capability. *)
Theorem exact_match_keys q1 q2 :
  q1 <> q2 ->
  (forall w : world Cap,
      (forall r, In r (db w) -> question r = q1) ->
      calls (snd (get_response generate q2 w)) = (calls w ++ [q2])%list)
  /\ (forall c log,
         calls (serve generate [q1; q2] (World c log (init_db None)))
         = (log ++ [q1; q2])%list).
Proof.
  intros Hne.
  assert (Hone : forall w : world Cap,
             (forall r, In r (db w) -> question r = q1) ->
             calls (snd (get_response generate q2 w)) = (calls w ++ [q2])%list).
  { intros w Hall.
    assert (Hmiss : ~ cached q2 (db w)).
    { intros (r & Hin & Hq). apply Hne. now rewrite <- (Hall r Hin). }
    rewrite (get_response_miss q2 w Hmiss).
    now destruct (generate (cap w) q2) as [[t|m] c]. }
  split; [exact Hone|]. intros c log. cbn [serve init_db].
  assert (Hmiss : ~ cached q1 (db (World c log []))).
  { intros (r & [] & _). }
  rewrite (get_response_miss q1 _ Hmiss). cbn [cap calls db].
  destruct (generate c q1) as [[t|m] c1]; cbn [snd]; rewrite Hone;
    cbn [calls db]; try (now rewrite <- app_assoc).
  - intros r [<- | []]. reflexivity.
  - intros r [].
Qed.

(** C7. Uniqueness: after any sequence of requests handled one at a time
    from the empty store [init_db] creates, no two entries of the store
    have the same question; the requests that follow leave every entry
    where it is and as it is, adding entries after it at most; and
    [init_db] leaves a store that exists as it is. *)
Theorem cache_entries_unique_and_kept (c : Cap) (log qs qs' : list string) :
  let start := World c log (init_db None) in
  NoDup (map question (db (serve generate qs start)))
  /\ (exists more,
        db (serve generate (qs ++ qs') start)
        = (db (serve generate qs start) ++ more)%list)
  /\ forall t, init_db (Some t) = t.
Proof.
  cbn zeta. repeat split.
  - apply serve_unique. constructor.
  - rewrite serve_app. apply serve_extends.
Qed.

(** C10. On a miss the store and the client get the text of the model
    without the whitespace of its two ends, and the store gets the
    question as it came. *)
Theorem miss_stores_stripped q (w : world Cap) t c :
  ~ cached q (db w) ->
  generate (cap w) q = (Text t, c) ->
  exists a pre post,
    t = pre ++ a ++ post
    /\ all_space pre = true /\ all_space post = true
    /\ starts_with_space a = false /\ ends_with_space a = false
    /\ fst (get_response generate q w) = Return (reply a)
    /\ db (snd (get_response generate q w))
       = (db w ++ [Row (next_id (db w)) q a])%list.
Proof.
  intros Hmiss Hg.
  destruct (strip_spec t) as (pre & post & Ht & Hpre & Hpost & Hst & Hend).
  exists (strip t), pre, post.
  rewrite (get_response_miss q w Hmiss), Hg. cbn [fst snd db].
  repeat split; assumption.
Qed.

End Gateway.

Lemma cache_hit_or_miss_witness :
  get_response answers_a1 "Q1" fresh
  = (Return (reply "A1"), World 1%nat ["Q1"] [Row 1 "Q1" "A1"])
  /\ get_response answers_a1 "Q1" (World 1%nat ["Q1"] [Row 1 "Q1" "A1"])
     = (Return (reply "A1"), World 1%nat ["Q1"] [Row 1 "Q1" "A1"]).
Proof.
  split.
  - apply (proj2 (cache_hit_or_miss nat answers_a1 "Q1" fresh)).
    intros (r & [] & _).
  - destruct (proj1 (cache_hit_or_miss nat answers_a1 "Q1"
                       (World 1%nat ["Q1"] [Row 1 "Q1" "A1"])))
      as (r & Hin & _ & Hrun).
    + exists (Row 1 "Q1" "A1"). split; [now left | reflexivity].
    + destruct Hin as [<- | []]. exact Hrun.
Defined.

Lemma exact_match_keys_witness :
  "Q1" <> "q1"
  /\ calls (serve answers_a1 ["Q1"; "q1"] fresh) = ["Q1"; "q1"]
  /\ calls (snd (get_response answers_a1 "Q1 "
                   (World 1%nat ["Q1"] [Row 1 "Q1" "A1"])))
     = ["Q1"; "Q1 "].
Proof.
  split; [discriminate|]. split.
  - apply (proj2 (exact_match_keys nat answers_a1 "Q1" "q1" ltac:(discriminate))
             0%nat []).
  - apply (proj1 (exact_match_keys nat answers_a1 "Q1" "Q1 " ltac:(discriminate))
             (World 1%nat ["Q1"] [Row 1 "Q1" "A1"])).
    intros r [<- | []]. reflexivity.
Defined.

Lemma miss_stores_stripped_witness :
  ~ cached " Q1 " (db fresh)
  /\ exists a pre post,
       ("  " ++ " Q1 " ++ " " ++ nl) = pre ++ a ++ post
       /\ all_space pre = true /\ all_space post = true
       /\ starts_with_space a = false /\ ends_with_space a = false
       /\ fst (get_response echoes_padded " Q1 " fresh) = Return (reply a)
       /\ db (snd (get_response echoes_padded " Q1 " fresh))
          = ([] ++ [Row 1 " Q1 " a])%list.
Proof.
  assert (H : ~ cached " Q1 " (db fresh)) by (intros (r & [] & _)).
  split; [exact H|].
  exact (miss_stores_stripped nat echoes_padded " Q1 " fresh
           ("  " ++ " Q1 " ++ " " ++ nl) 1%nat H eq_refl).
Defined.

(** ** More on the cache *)

Lemma select_response_app q (a b : table) :
  select_response q (a ++ b)%list
  = (select_response q a ++ select_response q b)%list.
Proof. unfold select_response. now rewrite filter_app, map_app. Qed.

Lemma existsb_cached q (t : table) :
  existsb (String.eqb q) (map question t) = true <-> cached q t.
Proof.
  rewrite cached_questions, existsb_exists. split.
  - intros (x & Hin & Hx). apply String.eqb_eq in Hx. now subst.
  - intros Hin. exists q. split; [exact Hin | apply String.eqb_refl].
Qed.

Lemma max_id_nonneg (t : table) : 0 <= max_id t.
Proof.
  unfold max_id. induction t as [|r t IH]; cbn [fold_right]; lia.
Qed.

Lemma max_id_app (a b : table) :
  max_id (a ++ b)%list = Z.max (max_id a) (max_id b).
Proof.
  induction a as [|r a IH]; cbn [app max_id fold_right].
  - pose proof (max_id_nonneg b). unfold max_id in *. lia.
  - fold (max_id (a ++ b)%list) (max_id a). rewrite IH. lia.
Qed.

Section More.

Variable Cap : Type.
Variable generate : Cap -> string -> outcome * Cap.

Lemma get_response_first q (w : world Cap) a rest :
  select_response q (db w) = a :: rest ->
  get_response generate q w = (Return (reply a), w).
Proof.
  intros H. unfold get_response, bind, execute_select. now rewrite H.
Qed.

(** What one request does to the world: nothing, one call that failed, or
    one call and the row of its stripped reply for a question the store
    did not have. *)
Lemma get_response_step q (w : world Cap) :
  snd (get_response generate q w) = w
  \/ (exists c, snd (get_response generate q w)
                = World c (calls w ++ [q])%list (db w))
  \/ (exists c t,
         ~ cached q (db w)
         /\ snd (get_response generate q w)
            = World c (calls w ++ [q])%list (insert q (strip t) (db w))).
Proof.
  destruct (not_cached_dec q (db w)) as [H | H].
  - destruct (get_response_hit _ generate q w H) as (r & _ & _ & ->). now left.
  - rewrite (get_response_miss _ generate q w H).
    destruct (generate (cap w) q) as [[t|m] c]; right; [right | left].
    + now exists c, t.
    + now exists c.
Qed.

(** X16. Round trip: once a miss has stored the reply for a question, every
    later request for that question, whatever was asked in between, is
    answered with that same stripped text and leaves the capability, the
    call log and the store as they are, also when the stripped text is
    empty. *)
Theorem cached_answer_is_kept q t c (w : world Cap) (qs : list string) :
  ~ cached q (db w) ->
  generate (cap w) q = (Text t, c) ->
  let later := serve generate qs (snd (get_response generate q w)) in
  get_response generate q later = (Return (reply (strip t)), later).
Proof.
  intros Hmiss Hg later.
  destruct (serve_extends _ generate qs (snd (get_response generate q w)))
    as (more & Hdb).
  fold later in Hdb.
  rewrite (get_response_miss _ generate q w Hmiss), Hg in Hdb. cbn [snd db] in Hdb.
  apply (get_response_first q later (strip t)
           (select_response q more)).
  rewrite Hdb. unfold insert. rewrite !select_response_app.
  rewrite (select_response_miss q (db w) Hmiss).
  unfold select_response at 1. cbn [filter question map answer].
  now rewrite String.eqb_refl.
Qed.

(** X17. A miss on which the capability fails is not remembered: the exception
    leaves the handler, the store is as it was, and the next request for
    the same question calls the capability again. *)
Theorem failed_miss_is_retried q m c (w : world Cap) :
  ~ cached q (db w) ->
  generate (cap w) q = (Failure m, c) ->
  get_response generate q w
  = (Raise (Exn UpstreamError m), World c (calls w ++ [q])%list (db w))
  /\ calls (snd (get_response generate q
                   (snd (get_response generate q w))))
     = (calls w ++ [q; q])%list.
Proof.
  intros Hmiss Hg.
  rewrite (get_response_miss _ generate q w Hmiss), Hg. split; [reflexivity|].
  cbn [snd]. rewrite get_response_miss by exact Hmiss. cbn [cap calls db].
  destruct (generate c q) as [[t'|m'] c']; cbn [snd calls];
    now rewrite <- app_assoc.
Qed.

Lemma serve_first_asked qs :
  (forall c p, exists t c', generate c p = (Text t, c')) ->
  forall w : world Cap,
    map question (db (serve generate qs w))
    = (map question (db w) ++ first_asked (map question (db w)) qs)%list
    /\ calls (serve generate qs w)
       = (calls w ++ first_asked (map question (db w)) qs)%list.
Proof.
  intros Hreplies. induction qs as [|q qs IH]; intros w; cbn [serve first_asked].
  - now rewrite !app_nil_r.
  - destruct (existsb (String.eqb q) (map question (db w))) eqn:Hq.
    + apply existsb_cached in Hq.
      destruct (get_response_hit _ generate q w Hq) as (r & _ & _ & ->).
      apply IH.
    + assert (Hmiss : ~ cached q (db w)).
      { intros H. apply existsb_cached in H. congruence. }
      rewrite (get_response_miss _ generate q w Hmiss).
      destruct (Hreplies (cap w) q) as (t & c & ->). cbn [snd].
      destruct (IH (World c (calls w ++ [q])%list (insert q (strip t) (db w))))
        as [Hdb Hcalls].
      cbn [db calls] in *. unfold insert in *.
      rewrite map_app in *. cbn [map question] in *.
      rewrite Hdb, Hcalls, <- !app_assoc. now split.
Qed.

(** X18. With a capability that always replies, requests served from the empty
    store call it once for each distinct question, in the order the
    questions are first asked, and the store holds exactly those
    questions in that order. *)
Theorem one_call_per_question (c : Cap) (qs : list string) :
  (forall c p, exists t c', generate c p = (Text t, c')) ->
  let served := serve generate qs (World c [] (init_db None)) in
  calls served = first_asked [] qs
  /\ map question (db served) = first_asked [] qs.
Proof.
  intros Hreplies served.
  destruct (serve_first_asked qs Hreplies (World c [] (init_db None)))
    as [Hdb Hcalls].
  split; [exact Hcalls | exact Hdb].
Qed.

Lemma serve_invariant qs :
  forall w : world Cap,
    incl (map question (db w)) (calls w) ->
    Forall (fun r => stripped (answer r)) (db w) ->
    let served := serve generate qs w in
    (List.length (calls served) <= List.length (calls w) + List.length qs)%nat
    /\ incl (map question (db served)) (calls served)
    /\ Forall (fun r => stripped (answer r)) (db served).
Proof.
  induction qs as [|q qs IH]; intros w Hincl Hstr; cbn [serve].
  - cbn. repeat split; [lia | exact Hincl | exact Hstr].
  - destruct (get_response_step q w) as [-> | [(c & ->) | (c & t & _ & ->)]].
    + destruct (IH w Hincl Hstr) as (Hlen & Hi & Hs).
      cbn [List.length]. repeat split; [lia | exact Hi | exact Hs].
    + destruct (IH (World c (calls w ++ [q])%list (db w))) as (Hlen & Hi & Hs).
      * cbn [db calls]. intros x Hx. apply in_or_app. left. now apply Hincl.
      * exact Hstr.
      * cbn [calls] in Hlen. rewrite length_app in Hlen. cbn [List.length] in *.
        repeat split; [lia | exact Hi | exact Hs].
    + destruct (IH (World c (calls w ++ [q])%list (insert q (strip t) (db w))))
        as (Hlen & Hi & Hs).
      * cbn [db calls]. unfold insert. rewrite map_app. cbn [map question].
        intros x Hx. apply in_app_or in Hx as [Hx | Hx]; apply in_or_app;
          [left; now apply Hincl | right; exact Hx].
      * cbn [db]. unfold insert. apply Forall_app. split; [exact Hstr|].
        constructor; [|constructor]. cbn [answer].
        destruct (strip_spec t) as (_ & _ & _ & _ & _ & H1 & H2). now split.
      * cbn [calls] in Hlen. rewrite length_app in Hlen. cbn [List.length] in *.
        repeat split; [lia | exact Hi | exact Hs].
Qed.

(** X19. Whatever the capability does, requests served from the empty store
    call it at most once each, every question in the store was asked of
    the capability, and no stored response begins or ends with
    whitespace. *)
Theorem store_invariants (c : Cap) (qs : list string) :
  let served := serve generate qs (World c [] (init_db None)) in
  (List.length (calls served) <= List.length qs)%nat
  /\ incl (map question (db served)) (calls served)
  /\ Forall (fun r => stripped (answer r)) (db served).
Proof.
  apply (serve_invariant qs (World c [] (init_db None))).
  - intros x [].
  - constructor.
Qed.

Lemma serve_ids qs :
  forall w : world Cap,
    map id (db w) = map Z.of_nat (seq 1 (List.length (db w))) ->
    max_id (db w) = Z.of_nat (List.length (db w)) ->
    let served := serve generate qs w in
    map id (db served) = map Z.of_nat (seq 1 (List.length (db served)))
    /\ max_id (db served) = Z.of_nat (List.length (db served)).
Proof.
  induction qs as [|q qs IH]; intros w Hids Hmax; cbn [serve].
  - now split.
  - destruct (get_response_step q w) as [-> | [(c & ->) | (c & t & _ & ->)]].
    + now apply IH.
    + now apply IH.
    + apply IH; cbn [db]; unfold insert, next_id; fold (max_id (db w)).
      * rewrite map_app, length_app. cbn [map id List.length].
        rewrite Nat.add_1_r, seq_S, map_app, <- Hids, Hmax. cbn [map].
        do 2 f_equal. lia.
      * rewrite max_id_app, length_app. cbn [max_id fold_right id List.length].
        rewrite Hmax. lia.
Qed.

(** X20. The rows stored from the empty store are numbered 1, 2, 3, ... in the
    order they were stored, so no two rows share an id. *)
Theorem row_ids_count_up (c : Cap) (log qs : list string) :
  let served := serve generate qs (World c log (init_db None)) in
  map id (db served) = map Z.of_nat (seq 1 (List.length (db served)))
  /\ NoDup (map id (db served)).
Proof.
  intros served.
  destruct (serve_ids qs (World c log (init_db None)) eq_refl eq_refl)
    as [Hids _].
  fold served in Hids. split; [exact Hids|]. rewrite Hids.
  apply Finite.Injective_map_NoDup; [|apply seq_NoDup].
  intros x y. apply Nat2Z.inj.
Qed.

End More.

Lemma cached_answer_is_kept_witness :
  ~ cached "Q1" (db fresh)
  /\ get_response echoes_padded "Q1"
       (serve echoes_padded ["Q2"; "q1"]
          (snd (get_response echoes_padded "Q1" fresh)))
     = (Return (reply "Q1"),
        serve echoes_padded ["Q2"; "q1"]
          (snd (get_response echoes_padded "Q1" fresh))).
Proof.
  assert (H : ~ cached "Q1" (db fresh)) by (intros (r & [] & _)).
  split; [exact H|].
  exact (cached_answer_is_kept nat echoes_padded "Q1"
           ("  " ++ "Q1" ++ " " ++ nl) 1%nat fresh ["Q2"; "q1"] H eq_refl).
Defined.

Lemma failed_miss_is_retried_witness :
  ~ cached "Q1" (db fresh)
  /\ get_response fails_once "Q1" fresh
     = (Raise (Exn UpstreamError "quota"), World 1%nat ([] ++ ["Q1"])%list [])
  /\ calls (snd (get_response fails_once "Q1"
                   (snd (get_response fails_once "Q1" fresh))))
     = ([] ++ ["Q1"; "Q1"])%list.
Proof.
  assert (H : ~ cached "Q1" (db fresh)) by (intros (r & [] & _)).
  split; [exact H|].
  exact (failed_miss_is_retried nat fails_once "Q1" "quota" 1%nat fresh H eq_refl).
Defined.

Lemma one_call_per_question_witness :
  calls (serve answers_a1 ["Q1"; "q1"; "Q1"; "Q2"; "q1"] (World 0%nat [] (init_db None)))
  = ["Q1"; "q1"; "Q2"]
  /\ map question
       (db (serve answers_a1 ["Q1"; "q1"; "Q1"; "Q2"; "q1"]
              (World 0%nat [] (init_db None))))
     = ["Q1"; "q1"; "Q2"].
Proof.
  apply (one_call_per_question nat answers_a1 0%nat
           ["Q1"; "q1"; "Q1"; "Q2"; "q1"]).
  intros c p. exists "A1", (S c). reflexivity.
Defined.

End CharanFacts.
